(** * Replikas: the utility layer and the Article data-access object

    A shallow embedding of [src/model/Utilitaire.ts] (both revisions kept in
    the repository) and of the [Article] class, with the properties of the
    specification stated over it.

    Conventions of the embedding:
    - a JavaScript [number] that holds an integer (a time value in
      milliseconds, a row id, a count) is a [Z]; the arithmetic of [dateDiff]
      and the printing of a number round as binary64 does, so that an
      integer beyond 2^53 stands for the double nearest to it;
    - a JavaScript string is a [string];
    - an optional field ([maxAge?: number]) is an [option];
    - a thrown exception or a rejected promise is the [Throw] outcome of the
      computation, a normal completion is [Return]. *)

From Stdlib Require Import ZArith List String Ascii Bool Lia.
From Stdlib Require Import DecimalString Sorted Permutation.
Import ListNotations.

Local Open Scope string_scope.
Local Open Scope Z_scope.

(** ** JavaScript primitives used by the source *)

Module JS.

(** [ToBoolean]: the test performed by [cond ? a : b], [if (cond)] and
    [a || b]. *)
Class Truthy (A : Type) := truthy : A -> bool.

#[global] Instance truthy_number : Truthy Z := fun n => negb (n =? 0).
#[global] Instance truthy_boolean : Truthy bool := fun b => b.
#[global] Instance truthy_string : Truthy string :=
  fun s => match s with EmptyString => false | String _ _ => true end.
(** [undefined] and [null] are falsy. *)
#[global] Instance truthy_optional {A} `{Truthy A} : Truthy (option A) :=
  fun o => match o with Some a => truthy a | None => false end.

(** [ToString], as applied by a template literal [`${x}`]. *)
Class ToString (A : Type) := to_string : A -> string.

(** *** Numbers

    A [number] is a binary64 double. The integers of magnitude up to 2^53 are
    doubles; a larger integer, and a quotient, is the nearest double with a
    significand of 53 bits, ties going to the even significand. The range of
    the exponent is left unbounded: the numbers of the source stay far from
    its ends. *)

(** The integer nearest to [p/d], for [d > 0]; halfway goes to the even
    one. *)
Definition round_half_even (p d : Z) : Z :=
  let q := p / d in
  let twice := 2 * (p mod d) in
  if twice <? d then q
  else if d <? twice then q + 1
  else if Z.even q then q else q + 1.

(** Whether [x/d] scaled by [2^s] is below 2^52. *)
Definition scaled_below (x d s : Z) : bool :=
  if 0 <=? s then x * 2 ^ s <? d * 2 ^ 52 else x <? d * 2 ^ (52 - s).

(** The double nearest to [x/d], for [x > 0] and [d > 0], as a pair
    [(m, s)] that stands for [m / 2^s]: [s] is the scale that brings the
    quotient into [2^52, 2^53), and [m] is the scaled quotient rounded. *)
Definition nearest (x d : Z) : Z * Z :=
  let s0 := 52 + Z.log2 d - Z.log2 x in
  let s := if scaled_below x d s0 then s0 + 1 else s0 in
  (if 0 <=? s then round_half_even (x * 2 ^ s) d
   else round_half_even x (d * 2 ^ (- s)), s).

Definition floor_of (f : Z * Z) : Z :=
  let (m, s) := f in if 0 <=? s then m / 2 ^ s else m * 2 ^ (- s).

Definition ceil_of (f : Z * Z) : Z :=
  let (m, s) := f in
  if 0 <=? s then (m + 2 ^ s - 1) / 2 ^ s else m * 2 ^ (- s).

(** [Math.floor(a / b)] for a positive divisor: the quotient is rounded to
    a double before its floor is taken. *)
Definition floor_div (a b : Z) : Z :=
  if a =? 0 then 0
  else if 0 <? a then floor_of (nearest a b)
  else - ceil_of (nearest (- a) b).

(** The double that an integer stands for. *)
Definition to_double (a : Z) : Z := floor_div a 1.

(** [a - b] on doubles. *)
Definition minus (a b : Z) : Z := to_double (a - b).

(** [a % b]: exact, with the sign of the dividend. *)
Definition remainder (a b : Z) : Z := Z.rem a b.

(** *** Number::toString on integers

    The digits are the fewest that still denote the number, [s] of them for
    the value [s * 10^(n-k)]; they are followed by zeros up to 21 digits and
    written in the exponent form beyond. *)
Definition decimal (n : Z) : string := NilZero.string_of_int (Z.to_int n).

Definition digits_count (v : Z) : Z :=
  Z.of_nat (String.length (decimal v)).

(** The [k]-digit candidates for a number [v] of [L] digits: the [k] leading
    digits of [v] and their successor, each kept if it denotes [v]; of two,
    the nearer one, and the even one when they are as near. *)
Definition candidate (v L k : Z) : option (Z * Z) :=
  let scale := 10 ^ (L - k) in
  let lo := v / scale in
  let hi := lo + 1 in
  let ok := fun c => to_double (c * scale) =? v in
  let pick := fun c => if c =? 10 ^ k then (10 ^ (k - 1), L + 1) else (c, L) in
  match ok lo, ok hi with
  | true, true =>
      let below := v - lo * scale in
      let above := hi * scale - v in
      if below <? above then Some (pick lo)
      else if above <? below then Some (pick hi)
      else Some (pick (if Z.even lo then lo else hi))
  | true, false => Some (pick lo)
  | false, true => Some (pick hi)
  | false, false => None
  end.

Fixpoint shortest (ks : list Z) (v L : Z) : Z * Z :=
  match ks with
  | [] => (v, L)
  | k :: rest =>
      if L <? k then (v, L)
      else match candidate v L k with
           | Some r => r
           | None => shortest rest v L
           end
  end.

Fixpoint zeros (n : nat) : string :=
  match n with O => "" | S n' => String "0" (zeros n') end.

Definition render (r : Z * Z) : string :=
  let (s, n) := r in
  let ds := decimal s in
  if n <=? 21 then ds ++ zeros (Z.to_nat (n - digits_count s))
  else match ds with
       | String c EmptyString => String c ("e+" ++ decimal (n - 1))
       | String c rest => String c ("." ++ rest ++ "e+" ++ decimal (n - 1))
       | EmptyString => ""
       end.

Definition positive_to_string (v : Z) : string :=
  render (shortest (map Z.of_nat (seq 1 17)) v (digits_count v)).

Definition integer_to_string (n : Z) : string :=
  if n =? 0 then "0"
  else if n <? 0 then "-" ++ positive_to_string (to_double (- n))
  else positive_to_string (to_double n).

#[global] Instance number_to_string : ToString Z := integer_to_string.
#[global] Instance string_to_string : ToString string := fun s => s.
#[global] Instance optional_to_string {A} `{ToString A} : ToString (option A) :=
  fun o => match o with Some a => to_string a | None => "undefined" end.

(** [a || b] on numbers. *)
Definition or_else (a b : Z) : Z := if truthy a then a else b.

(** [s.endsWith(";")] specialised to a one-character suffix. *)
Fixpoint endsWith (s : string) (c : ascii) : bool :=
  match s with
  | EmptyString => false
  | String a EmptyString => Ascii.eqb a c
  | String _ rest => endsWith rest c
  end.

(** The errors the source throws or provokes. *)
Inductive Error : Type :=
| SessionTokenInvalideError
| CaCestVraimentPasDeBolError
| AccountTypeMismatch
| ArticleInexistantError (id : Z)
| TypeError                       (* property access on [null] *)
| DatabaseError                   (* a statement rejected by the engine *)
| ProviderError.                  (* a failed request to the movie provider *)

(** The outcome of a call: a value, or an exception. *)
Inductive Outcome (A : Type) : Type :=
| Return (a : A)
| Throw (e : Error).
Arguments Return {A} a.
Arguments Throw {A} e.

End JS.
Import JS.

(** ** dateDiff *)

Module DateDiff.

(** A [Date] is its time value: milliseconds since the epoch, an integer of
    magnitude at most 8.64e15 for a valid date, and so a double. *)
Record Date : Type := { getTime : Z }.

Record Diff : Type := { sec : Z; min : Z; hour : Z; day : Z }.

Definition dateDiff (date1 date2 : Date) : Diff :=
  let diff_temps := minus (getTime date1) (getTime date2) in
  let diff_temps := floor_div diff_temps 1000 in
  let diff_sec := remainder diff_temps 60 in
  let diff_temps := floor_div (minus diff_temps diff_sec) 60 in
  let diff_min := remainder diff_temps 60 in
  let diff_temps := floor_div (minus diff_temps diff_min) 60 in
  let diff_hour := remainder diff_temps 24 in
  let diff_temps := floor_div (minus diff_temps diff_hour) 24 in
  {| sec := diff_sec; min := diff_min; hour := diff_hour; day := diff_temps |}.

(** The second-level delta the decomposition is meant to carry. *)
Definition seconds_between (date1 date2 : Date) : Z :=
  (getTime date1 - getTime date2) / 1000.

Definition recompose (d : Diff) : Z :=
  ((day d * 24 + hour d) * 60 + min d) * 60 + sec d.

End DateDiff.

(** ** addCookie *)

Module Cookie.

Record Cookie : Type := {
  name : string;
  value : string;
  maxAge : option Z;
  secure : option bool;
  path : option string
}.

(** A [Headers] object: the entries in insertion order. [append] adds an
    entry and keeps the ones already there. *)
Definition Headers : Type := list (string * string).

Definition append (headers : Headers) (name value : string) : Headers :=
  (headers ++ [(name, value)])%list.

(** The three optional fragments, one per conditional of the source. *)
Definition maxAge_fragment (cookie : Cookie) : string :=
  if truthy (maxAge cookie)
  then " Max-Age=" ++ to_string (maxAge cookie) ++ ";" else "".

Definition secure_fragment (cookie : Cookie) : string :=
  if truthy (secure cookie) then " Secure;" else "".

Definition path_fragment (cookie : Cookie) : string :=
  if truthy (path cookie)
  then " Path=" ++ to_string (path cookie) ++ ";" else "".

(** The value [val] built by [addCookie] before it is appended. *)
Definition cookie_value (cookie : Cookie) : string :=
  let val := to_string (name cookie) ++ "=" ++ to_string (value cookie) ++ ";" in
  let val := val ++ maxAge_fragment cookie in
  let val := val ++ secure_fragment cookie in
  let val := val ++ path_fragment cookie in
  val.

Definition addCookie (headers : Headers) (cookie : Cookie) : Headers :=
  append headers "Set-Cookie" (cookie_value cookie).

End Cookie.

(** ** Session resolution *)

Module Session.
Import Cookie.

Definition lower_char (c : ascii) : ascii :=
  let n := N_of_ascii c in
  if ((65 <=? n) && (n <=? 90))%N then ascii_of_N (n + 32) else c.

Fixpoint lower (s : string) : string :=
  match s with
  | EmptyString => EmptyString
  | String c rest => String (lower_char c) (lower rest)
  end.

Fixpoint join (sep : string) (l : list string) : string :=
  match l with
  | [] => ""
  | [x] => x
  | x :: rest => x ++ sep ++ join sep rest
  end.

(** [headers.get(name)]: [null] when no entry carries the name (compared
    without regard to case), otherwise the values joined by a comma and a
    space. *)
Definition get (headers : Headers) (name : string) : option string :=
  match filter (fun e => String.eqb (lower (fst e)) (lower name)) headers with
  | [] => None
  | e :: es => Some (join ", " (map snd (e :: es)))
  end.

(** The result of [String.prototype.match] for a pattern with one capture
    group and no [g] flag: the matched text and the text of group 1 (an
    array of length 2), or [null]. *)
Definition MatchArray : Type := (string * string)%type.
Definition array_length (m : MatchArray) : Z := 2.
Definition capture1 (m : MatchArray) : string := snd m.

Fixpoint strip_prefix (p s : string) : option string :=
  match p, s with
  | EmptyString, _ => Some s
  | String a p', String b s' => if Ascii.eqb a b then strip_prefix p' s' else None
  | String _ _, EmptyString => None
  end.

(** The capture group of the pattern and the semicolon after it, at the
    head of [s]: the longest run of characters other than a semicolon, which
    a semicolon must follow. A shorter run would be followed by a character
    of the run, never by a semicolon, so that backtracking finds nothing
    more. *)
Fixpoint value_semicolon (s : string) : option string :=
  match s with
  | EmptyString => None
  | String c rest =>
      if Ascii.eqb c ";" then Some ""
      else option_map (String c) (value_semicolon rest)
  end.

(** The whole pattern, the literal [token=] and then the above, anchored
    at the head of [s]. *)
Definition match_here (s : string) : option MatchArray :=
  match strip_prefix "token=" s with
  | Some rest =>
      option_map (fun v => ("token=" ++ v ++ ";", v)) (value_semicolon rest)
  | None => None
  end.

(** [s.match(pattern)]: the match at the leftmost position that has
    one. *)
Fixpoint match_token (s : string) : option MatchArray :=
  match match_here s with
  | Some m => Some m
  | None =>
      match s with
      | EmptyString => None
      | String _ rest => match_token rest
      end
  end.

(** The argument of [match]: the cookie string with a closing semicolon. *)
Definition normalize (cookies : string) : string :=
  if endsWith cookies ";" then cookies else cookies ++ ";".

(** The body shared by [getAccountBySession] and by the [getBuyerBySession]
    of the other revision; [lookup] is the static [getBySession] each one
    calls. Reading [length] off a [null] match throws a [TypeError]. *)
Definition resolve {A : Type} (lookup : string -> Outcome A)
    (headers : Headers) : Outcome A :=
  let cookies := get headers "cookie" in
  match cookies with
  | Some cookies' =>
      if truthy cookies then
        let token := match_token (normalize cookies') in
        match token with
        | None => Throw TypeError
        | Some token' =>
            if array_length token' >? 0 then lookup (capture1 token')
            else Throw SessionTokenInvalideError
        end
      else Throw SessionTokenInvalideError
  | None => Throw SessionTokenInvalideError
  end.

(** The account subsystem, which the sources only import: looking an
    account up by its session token, and narrowing it to a role. *)
Record Accounts : Type := {
  Account : Type;
  Buyer : Type;
  Company : Type;
  Account_getBySession : string -> Outcome Account;
  Buyer_getBySession : string -> Outcome Buyer;
  Buyer_getFromAccount : Account -> Outcome Buyer;
  Company_getFromAccount : Account -> Outcome Company
}.

Section Resolvers.
Variable acc : Accounts.

(** The revision with [getAccountBySession]. *)
Definition getAccountBySession (headers : Headers)
  : Outcome (Account acc) :=
  resolve (Account_getBySession acc) headers.

Definition getBuyerFromAccountSession (headers : Headers)
  : Outcome (Buyer acc) :=
  match getAccountBySession headers with
  | Return account => Buyer_getFromAccount acc account
  | Throw e => Throw e
  end.

Definition getCompanyBySession (headers : Headers)
  : Outcome (Company acc) :=
  match getAccountBySession headers with
  | Return account => Company_getFromAccount acc account
  | Throw e => Throw e
  end.

(** The revision of [src/model/Utilitaire.ts]. *)
Definition getBuyerBySession (headers : Headers) : Outcome (Buyer acc) :=
  resolve (Buyer_getBySession acc) headers.

End Resolvers.

(** The reading of a cookie header that section 6 of the specification
    gives: entries separated by semicolons, each [key=value]. The keys are
    what stands before the first [=] of an entry, leading blanks dropped. *)
Fixpoint split_on (sep : ascii) (s : string) : list string :=
  match s with
  | EmptyString => [""]
  | String c rest =>
      if Ascii.eqb c sep then "" :: split_on sep rest
      else match split_on sep rest with
           | [] => [String c ""]
           | x :: xs => String c x :: xs
           end
  end.

Fixpoint skip_blanks (s : string) : string :=
  match s with
  | String " " rest => skip_blanks rest
  | _ => s
  end.

Definition key_of (entry : string) : string :=
  hd "" (split_on "=" (skip_blanks entry)).

Definition cookie_keys (cookies : string) : list string :=
  map key_of (split_on ";" cookies).

Definition has_token_key (cookies : string) : bool :=
  existsb (String.eqb "token") (cookie_keys cookies).

Fixpoint has_char (c : ascii) (s : string) : bool :=
  match s with
  | EmptyString => false
  | String a rest => Ascii.eqb a c || has_char c rest
  end.

(** The language of the pattern: the literal [token=], a value free of
    semicolons, a semicolon. [Matches s pre v post] places one such word in
    [s], between [pre] and [post]. *)
Definition Matches (s pre v post : string) : Prop :=
  s = pre ++ "token=" ++ v ++ ";" ++ post /\ has_char ";" v = false.

End Session.

(** ** The database *)

Module Store.
Import DateDiff.
Local Open Scope list_scope.

Record ArticleRow : Type := {
  art_id : Z;
  art_name : string;
  art_description : string;
  art_price : Z;
  art_min_bidding : Z;
  art_auction_start : Date;
  art_auction_end : Date;
  m_id : Z;
  c_id : Z
}.

Record ImageRow : Type := { image_art_id : Z; img_path : string }.
Record MovieRow : Type := { movie_m_id : Z; m_title : string }.
Record BidRow : Type := { bid_art_id : Z; bid_b_id : Z }.

(** The tables the [Article] class reads and writes, each with its rows in
    the order a plain [SELECT] yields them. *)
Record Tables : Type := {
  article : list ArticleRow;
  article_image : list ImageRow;
  movie : list MovieRow;
  bid : list BidRow
}.

(** The row-changing statements of the source. *)
Inductive Write : Type :=
| InsertMovie (row : MovieRow)          (* ... ON CONFLICT DO NOTHING *)
| InsertArticle (row : ArticleRow)
| InsertImage (row : ImageRow).

Definition apply_write (t : Tables) (w : Write) : Tables :=
  match w with
  | InsertMovie row =>
      if existsb (fun m => movie_m_id m =? movie_m_id row) (movie t) then t
      else {| article := article t; article_image := article_image t;
              movie := movie t ++ [row]; bid := bid t |}
  | InsertArticle row =>
      {| article := article t ++ [row]; article_image := article_image t;
         movie := movie t; bid := bid t |}
  | InsertImage row =>
      {| article := article t; article_image := article_image t ++ [row];
         movie := movie t; bid := bid t |}
  end.

(** The engine stores no text that holds the character of code 0: a
    statement that carries one is rejected, whatever the schema. The
    constraints of the schema itself are not in the sources and add no
    rejection here. *)
Fixpoint valid_text (s : string) : bool :=
  match s with
  | EmptyString => true
  | String c rest => negb (Ascii.eqb c Ascii.zero) && valid_text rest
  end.

Definition accepted (w : Write) : bool :=
  match w with
  | InsertMovie row => valid_text (m_title row)
  | InsertArticle row => valid_text (art_name row) && valid_text (art_description row)
  | InsertImage row => valid_text (img_path row)
  end.

(** A request sent to the movie provider. *)
Inductive Request : Type :=
| GetMovie (id : option Z)
| GetMoviePosterURL (id : option Z) (size : string).

(** What a call can read and change: the committed tables, the sequence
    that numbers the articles, the statements of the open transaction that
    await its commit, and the requests made to the movie provider. *)
Record World : Type := {
  committed : Tables;
  art_id_seq : Z;
  pending : option (list Write);
  requests : list Request
}.

Definition set_committed (w : World) (t : Tables) : World :=
  {| committed := t; art_id_seq := art_id_seq w;
     pending := pending w; requests := requests w |}.

Definition set_pending (w : World) (p : option (list Write)) : World :=
  {| committed := committed w; art_id_seq := art_id_seq w;
     pending := p; requests := requests w |}.

Definition set_seq (w : World) (n : Z) : World :=
  {| committed := committed w; art_id_seq := n;
     pending := pending w; requests := requests w |}.

Definition add_request (w : World) (r : Request) : World :=
  {| committed := committed w; art_id_seq := art_id_seq w;
     pending := pending w; requests := requests w ++ [r] |}.

(** Asynchronous code: a function of the world that completes or throws,
    and leaves a world behind in both cases. *)
Definition M (A : Type) : Type := World -> Outcome A * World.

Definition ret {A} (a : A) : M A := fun w => (Return a, w).
Definition throw {A} (e : Error) : M A := fun w => (Throw e, w).
Definition bind {A B} (c : M A) (k : A -> M B) : M B :=
  fun w => match c w with
           | (Return a, w') => k a w'
           | (Throw e, w') => (Throw e, w')
           end.
(** [promise.catch(handler)] *)
Definition catch {A} (c : M A) (handler : Error -> M A) : M A :=
  fun w => match c w with
           | (Return a, w') => (Return a, w')
           | (Throw e, w') => handler e w'
           end.

Declare Scope store_scope.
Delimit Scope store_scope with store.
Notation "x <- c ;; k" := (bind c (fun x => k))
  (at level 61, c at next level, right associativity) : store_scope.
Notation "c ;;; k" := (bind c (fun _ => k))
  (at level 61, right associativity) : store_scope.
Local Open Scope store_scope.

(** [for (const x of l) { await body(x) }] *)
Fixpoint for_each {A} (l : list A) (body : A -> M unit) : M unit :=
  match l with
  | [] => ret tt
  | x :: rest => body x ;;; for_each rest body
  end.

(** [for (const x of l) { acc.push(await f(x)) }], from the accumulator
    [acc]. *)
Fixpoint push_each {A B} (l : list A) (f : A -> M B) (acc : list B)
  : M (list B) :=
  match l with
  | [] => ret acc
  | x :: rest => b <- f x ;; push_each rest f (acc ++ [b])
  end.

(** Modelled from the spec: the module [./Database] is not among the
    sources. Its handle is the client of the database driver: a statement
    sent through the handle itself runs on a connection of the pool and is
    committed at once; [begin] reserves a connection, opens a transaction on
    it and passes its callback a handle scoped to that connection; only the
    statements sent through the scoped handle belong to the transaction,
    which is committed when the callback completes and rolled back when it
    throws. *)
Inductive Handle : Type := Pool | Scoped.

Definition view (h : Handle) (w : World) : Tables :=
  match h, pending w with
  | Scoped, Some log => fold_left apply_write log (committed w)
  | _, _ => committed w
  end.

Definition query {A} (h : Handle) (select : Tables -> A) : M A :=
  fun w => (Return (select (view h w)), w).

Definition execute (h : Handle) (wr : Write) : M unit :=
  fun w =>
    if accepted wr then
      match h with
      | Pool => (Return tt, set_committed w (apply_write (committed w) wr))
      | Scoped =>
          match pending w with
          | Some log => (Return tt, set_pending w (Some (log ++ [wr])))
          | None => (Throw DatabaseError, w)
          end
      end
    else (Throw DatabaseError, w).

(** [INSERT INTO article (...) VALUES (...) RETURNING *]: the row gets the
    next number of the sequence, and comes back as the only row of the
    result. *)
Definition insert_article (h : Handle) (values : Z -> ArticleRow)
  : M (list ArticleRow) :=
  fun w =>
    let row := values (art_id_seq w) in
    match execute h (InsertArticle row) (set_seq w (art_id_seq w + 1)) with
    | (Return _, w') => (Return [row], w')
    | (Throw e, w') => (Throw e, w')
    end.

(** As the handle above: [begin] and its scoped handle. *)
Definition begin {A} (callback : Handle -> M A) : M A :=
  fun w =>
    match callback Scoped (set_pending w (Some [])) with
    | (Return a, w') =>
        (Return a, set_pending (set_committed w' (view Scoped w')) None)
    | (Throw e, w') => (Throw e, set_pending w' None)
    end.

(** A [SELECT] that the engine may reject. *)
Definition query_checked {A} (h : Handle) (select : Tables -> option A)
  : M A :=
  fun w => match select (view h w) with
           | Some rows => (Return rows, w)
           | None => (Throw DatabaseError, w)
           end.

(** [LIMIT l OFFSET o] over the rows of a result; the engine rejects a
    negative count. *)
Definition limit_offset {A} (l o : Z) (rows : list A) : option (list A) :=
  if (l <? 0) || (o <? 0) then None
  else Some (firstn (Z.to_nat l) (skipn (Z.to_nat o) rows)).

(** [result[i]], and the [TypeError] that reading a column off a missing
    row provokes. *)
Definition row_at {A} (result : list A) (i : nat) : M A :=
  match nth_error result i with
  | Some row => ret row
  | None => throw TypeError
  end.

End Store.

(** ** The Article class *)

Module Article.
Import DateDiff Store.
Local Open Scope list_scope.
Local Open Scope store_scope.

Record Article : Type := {
  id : option Z;
  name : string;
  description : string;
  price : Z;
  min_bidding : Z;
  auction_start : Date;
  auction_end : Date;
  img_paths : list string;
  tmdb_movie_id : option Z;
  selling_company_id : option Z
}.

Definition push_img_path (article : Article) (image : ImageRow) : Article :=
  {| id := id article; name := name article;
     description := description article; price := price article;
     min_bidding := min_bidding article;
     auction_start := auction_start article;
     auction_end := auction_end article;
     img_paths := img_paths article ++ [img_path image];
     tmdb_movie_id := tmdb_movie_id article;
     selling_company_id := selling_company_id article |}.

Record Params : Type := { limit : Z; offset : Z }.

Definition Database_get : Handle := Pool.

(** *** The statements, as functions of the tables *)

(** [SELECT * FROM article_image WHERE art_id = ${id}]; no row equals a
    [null]. *)
Definition select_images (id : option Z) (t : Tables) : list ImageRow :=
  match id with
  | Some i => filter (fun image => image_art_id image =? i) (article_image t)
  | None => []
  end.

(** [SELECT * FROM article WHERE art_id = ${id}] *)
Definition select_article (id : Z) (t : Tables) : list ArticleRow :=
  filter (fun row => art_id row =? id) (article t).

(** [SELECT * FROM article] *)
Definition select_articles (t : Tables) : list ArticleRow := article t.

(** [count(art_id)] of the group of [id] in [bid]. *)
Definition bid_count (t : Tables) (id : Z) : Z :=
  Z.of_nat (List.length (filter (fun b => bid_art_id b =? id) (bid t))).

(** [GROUP BY art_id]: one entry per article that has a bid. *)
Definition bid_groups (t : Tables) : list Z :=
  nodup Z.eq_dec (map bid_art_id (bid t)).

(** [ORDER BY key DESC]; rows of equal key keep their order. *)
Fixpoint insert_desc (key : Z -> Z) (x : Z) (l : list Z) : list Z :=
  match l with
  | [] => [x]
  | y :: rest =>
      if key y <=? key x then x :: y :: rest
      else y :: insert_desc key x rest
  end.

Definition order_desc (key : Z -> Z) (l : list Z) : list Z :=
  fold_right (insert_desc key) [] l.

(** What the statement of [mostBids] leaves to the engine. The groups of
    [GROUP BY] come in an order of its choice, which decides between groups
    of equal count; and the outer [SELECT] has no [ORDER BY], so that the
    order in which its rows come back is its choice too, which may depend on
    the tables and on the ids that the sub-query yields. Whatever the
    choices, the groups are the same groups and the rows the same rows. *)
Record RowOrder : Type := {
  groups : Tables -> list Z -> list Z;
  groups_permutation : forall t ids, Permutation (groups t ids) ids;
  arrange : Tables -> list Z -> list ArticleRow -> list ArticleRow;
  arrange_permutation :
    forall t page rows, Permutation (arrange t page rows) rows
}.

(** The ranking of the sub-query of [mostBids], before its [LIMIT]. *)
Definition bid_ranking (order : RowOrder) (t : Tables) : list Z :=
  order_desc (bid_count t) (groups order t (bid_groups t)).

(** The whole statement of [mostBids]: the articles whose id the sub-query
    yields, in the order of the engine. *)
Definition select_most_bids (order : RowOrder) (l o : Z) (t : Tables)
  : option (list ArticleRow) :=
  option_map
    (fun page =>
       arrange order t page
         (filter (fun row => existsb (Z.eqb (art_id row)) page) (article t)))
    (limit_offset l o (bid_ranking order t)).

Record Movie : Type := { title : string }.

Section Collaborators.

(** The movie provider, which the sources only import: each request
    resolves or is rejected. *)
Variable TMDB_getMovie : option Z -> Outcome Movie.
Variable TMDB_getMoviePosterURL : option Z -> string -> Outcome string.

(** The rows that the full-text and similarity conditions of the search
    statement keep, in the order of their ranks: a capability of the
    engine. *)
Variable ranked_matches : string -> Tables -> list ArticleRow.

(** The order in which the engine yields the rows of [mostBids]. *)
Variable row_order : RowOrder.

Definition getMovie (id : option Z) : M Movie :=
  fun w => (TMDB_getMovie id, add_request w (GetMovie id)).

Definition getMoviePosterURL (id : option Z) (size : string) : M string :=
  fun w => (TMDB_getMoviePosterURL id size,
            add_request w (GetMoviePosterURL id size)).

Definition getFromResult (result : ArticleRow) : M Article :=
  let database := Database_get in
  let article :=
    {| id := Some (art_id result); name := art_name result;
       description := art_description result; price := art_price result;
       min_bidding := art_min_bidding result;
       auction_start := art_auction_start result;
       auction_end := art_auction_end result;
       img_paths := [];
       tmdb_movie_id := Some (m_id result);
       selling_company_id := Some (c_id result) |} in
  imgs <- query database (select_images (id article)) ;;
  ret (fold_left push_img_path imgs article).

Definition get (id : Z) : M Article :=
  let database := Database_get in
  result <- query database (select_article id) ;;
  if Z.of_nat (List.length result) =? 0 then throw (ArticleInexistantError id)
  else row <- row_at result 0 ;; getFromResult row.

Definition create (name description : string) (price min_bidding : Z)
    (auction_start auction_end : Date) (img_paths : list string)
    (tmdb_movie_id selling_company_id : Z) : M Article :=
  movie <- getMovie (Some tmdb_movie_id) ;;
  let database := Database_get in
  results <- begin (fun sql =>
    execute database
      (InsertMovie {| movie_m_id := tmdb_movie_id;
                      m_title := title movie |}) ;;;
    result <- insert_article database (fun art_id =>
      {| art_id := art_id; art_name := name;
         art_description := description; art_price := price;
         art_min_bidding := min_bidding;
         art_auction_start := auction_start;
         art_auction_end := auction_end;
         m_id := tmdb_movie_id; c_id := selling_company_id |}) ;;
    for_each img_paths (fun img_path =>
      row <- row_at result 0 ;;
      execute database
        (InsertImage {| image_art_id := art_id row;
                        img_path := img_path |})) ;;;
    row <- row_at result 0 ;;
    ret [row]) ;;
  result <- row_at results 0 ;;
  getFromResult result.

Definition getAll : M (list Article) :=
  let database := Database_get in
  result <- query database select_articles ;;
  push_each result getFromResult [].

(** The timing of the search and the line it writes to the console are
    left out. *)
Definition getBySearch (search : string) (params : Params)
  : M (list Article) :=
  if String.eqb search "@all" then getAll
  else
    let database := Database_get in
    result <- query_checked database (fun t =>
      limit_offset (limit params) (or_else (offset params) 0)
                   (ranked_matches search t)) ;;
    push_each result getFromResult [].

Definition mostBids (params : Params) : M (list Article) :=
  let database := Database_get in
  result <- query_checked database
    (select_most_bids row_order (or_else (limit params) 8)
                      (or_else (offset params) 0)) ;;
  push_each result getFromResult [].

Definition getPoster (this : Article) : M string :=
  match img_paths this with
  | first :: _ => ret first       (* length > 0, and its element 0 *)
  | [] =>
      catch (getMoviePosterURL (tmdb_movie_id this) "w342")
            (fun _ => ret "/img/article/placeholder.jpg"%string)
  end.

End Collaborators.

(** The entity that [getFromResult] builds from a row, given the tables. *)
Definition entity (t : Tables) (row : ArticleRow) : Article :=
  {| id := Some (art_id row); name := art_name row;
     description := art_description row; price := art_price row;
     min_bidding := art_min_bidding row;
     auction_start := art_auction_start row;
     auction_end := art_auction_end row;
     img_paths :=
       map img_path
           (filter (fun image => image_art_id image =? art_id row)
                   (article_image t));
     tmdb_movie_id := Some (m_id row);
     selling_company_id := Some (c_id row) |}.

(** A list of articles in the order the specification gives for
    [mostBids]: no article has fewer bids than one that follows it. *)
Definition bids_of (t : Tables) (a : Article) : Z :=
  match id a with Some i => bid_count t i | None => 0 end.

Definition by_descending_bids (t : Tables) (l : list Article) : Prop :=
  StronglySorted (fun a b => bids_of t b <= bids_of t a) l.

(** What the specification says of [mostBids], word for word: the articles,
    ordered by descending count of their bid records, and of this list the
    page that [limit] and [offset] cut out. *)
Definition ranked_articles_page (t : Tables) (params : Params)
    (l : list Article) : Prop :=
  exists ranking : list ArticleRow,
    Permutation ranking (article t)
    /\ StronglySorted
         (fun a b => bid_count t (art_id b) <= bid_count t (art_id a)) ranking
    /\ l = map (entity t)
              (firstn (Z.to_nat (limit params))
                      (skipn (Z.to_nat (offset params)) ranking)).

(** Two engines: one yields the groups and the rows in the order of the
    tables, the other in the reverse order. *)
Definition table_order : RowOrder :=
  {| groups := fun _ ids => ids;
     groups_permutation := fun _ ids => Permutation_refl ids;
     arrange := fun _ _ rows => rows;
     arrange_permutation := fun _ _ rows => Permutation_refl rows |}.

Definition reverse_order : RowOrder :=
  {| groups := fun _ ids => rev ids;
     groups_permutation :=
       fun _ ids => Permutation_sym (Permutation_rev ids);
     arrange := fun _ _ rows => rev rows;
     arrange_permutation :=
       fun _ _ rows => Permutation_sym (Permutation_rev rows) |}.

End Article.

(** ** Sample data *)

Module Sample.
Import DateDiff Store Article.
Local Open Scope list_scope.

Definition epoch : Date := {| getTime := 0 |}.

Definition poster (i : Z) : ArticleRow :=
  {| art_id := i; art_name := "Poster"; art_description := "Original";
     art_price := 100; art_min_bidding := 5;
     art_auction_start := epoch; art_auction_end := epoch;
     m_id := 7; c_id := 3 |}.

Definition bid_on (i : Z) : BidRow := {| bid_art_id := i; bid_b_id := 1 |}.

Definition empty_tables : Tables :=
  {| article := []; article_image := []; movie := []; bid := [] |}.

Definition fresh : World :=
  {| committed := empty_tables; art_id_seq := 1;
     pending := None; requests := [] |}.

(** Two articles; the second one has two bids, the first one has one; the
    first one has two images. *)
Definition auction_tables : Tables :=
  {| article := [poster 1; poster 2];
     article_image :=
       [ {| image_art_id := 1; img_path := "/img/article/1-a.jpg" |};
         {| image_art_id := 2; img_path := "/img/article/2-a.jpg" |};
         {| image_art_id := 1; img_path := "/img/article/1-b.jpg" |} ];
     movie := [ {| movie_m_id := 7; m_title := "Alien" |} ];
     bid := [bid_on 2; bid_on 2; bid_on 1] |}.

Definition auction : World :=
  {| committed := auction_tables; art_id_seq := 3;
     pending := None; requests := [] |}.

(** Two articles, of which only the second has a bid. *)
Definition quiet_tables : Tables :=
  {| article := [poster 1; poster 2]; article_image := [];
     movie := [ {| movie_m_id := 7; m_title := "Alien" |} ];
     bid := [bid_on 2] |}.

Definition quiet : World :=
  {| committed := quiet_tables; art_id_seq := 3;
     pending := None; requests := [] |}.

(** A provider that knows one film and has no poster for it. *)
Definition alien_only (id : option Z) : Outcome Movie :=
  match id with
  | Some 7 => Return {| title := "Alien" |}
  | _ => Throw ProviderError
  end.

Definition no_poster (id : option Z) (size : string) : Outcome string :=
  Throw ProviderError.

(** A path that holds the character of code 0. *)
Definition bad_path : string := String Ascii.zero "".

End Sample.

(** ** The components of a difference, negated *)

Module DiffOps.
Import DateDiff.

Definition negated (d : Diff) : Diff :=
  {| sec := - sec d; min := - min d; hour := - hour d; day := - day d |}.

End DiffOps.

(** ** The rest of the Article class *)

Module ArticleRest.
Import DateDiff Store Article.
Local Open Scope list_scope.
Local Open Scope store_scope.

(** [getFallback]; the two [new Date()] are the arguments [now] and
    [now']. *)
Definition getFallback (now now' : Date) (id : Z) : Article :=
  {| Article.id := None;
     name := ("Article " ++ to_string id ++ " non trouvé")%string;
     description := "Cet article n'existe pas ou plus";
     price := 0;
     min_bidding := 0;
     auction_start := now;
     auction_end := now';
     img_paths := ["/img/article/placeholder.jpg"%string];
     tmdb_movie_id := None;
     selling_company_id := None |}.

(** The table [interests], which the class only reads. *)
Record InterestRow : Type := { interest_art_id : Z; interest_b_id : Z }.

(** [SELECT * FROM interests WHERE art_id = ${this.id} AND b_id = ${b}];
    no row equals a [null]. *)
Definition select_interests (interests : list InterestRow) (id : option Z)
    (b : Z) : list InterestRow :=
  match id with
  | Some i =>
      filter (fun row => (interest_art_id row =? i) && (interest_b_id row =? b))
             interests
  | None => []
  end.

(** [isLikedBy], given the rows of [interests] and the id that
    [buyer.getId()] returns. *)
Definition isLikedBy (interests : list InterestRow) (this : Article)
    (buyer_id : Z) : M bool :=
  result <- query Database_get
              (fun _ => select_interests interests (id this) buyer_id) ;;
  ret (Z.of_nat (List.length result) >? 0).

(** [DELETE FROM article WHERE art_id = ${id}] and
    [DELETE FROM article_image WHERE art_id = ${id}], as changes of the
    tables; no row equals a [null]. *)
Definition delete_article_rows (id : option Z) (t : Tables) : Tables :=
  match id with
  | Some i =>
      {| article := filter (fun row => negb (art_id row =? i)) (article t);
         article_image := article_image t; movie := movie t; bid := bid t |}
  | None => t
  end.

Definition delete_image_rows (id : option Z) (t : Tables) : Tables :=
  match id with
  | Some i =>
      {| article := article t;
         article_image :=
           filter (fun image => negb (image_art_id image =? i))
                  (article_image t);
         movie := movie t; bid := bid t |}
  | None => t
  end.

(** A [DELETE] sent through the handle of the pool, the one [delete] uses:
    committed at once. *)
Definition execute_delete (change : Tables -> Tables) : M unit :=
  fun w => (Return tt, set_committed w (change (committed w))).

Definition delete (this : Article) : M unit :=
  execute_delete (delete_article_rows (id this)) ;;;
  execute_delete (delete_image_rows (id this)).

(** The statements that a call of [create] sends, in their order, for the
    title that the movie provider gave and the id that the sequence gives. *)
Definition create_writes (title : string) (row : ArticleRow)
    (img_paths : list string) : list Write :=
  InsertMovie {| movie_m_id := m_id row; m_title := title |}
  :: InsertArticle row
  :: map (fun p => InsertImage {| image_art_id := art_id row; img_path := p |})
         img_paths.

(** The statements of a list that the engine accepts before the first one
    that it rejects. *)
Fixpoint accepted_prefix (ws : list Write) : list Write :=
  match ws with
  | [] => []
  | wr :: rest => if accepted wr then wr :: accepted_prefix rest else []
  end.

(** The row that [create] asks the engine to insert, once the sequence has
    given its id. *)
Definition new_row (name description : string) (price min_bidding : Z)
    (auction_start auction_end : Date)
    (tmdb_movie_id selling_company_id : Z) (art_id : Z) : ArticleRow :=
  {| art_id := art_id; art_name := name;
     art_description := description; art_price := price;
     art_min_bidding := min_bidding;
     art_auction_start := auction_start;
     art_auction_end := auction_end;
     m_id := tmdb_movie_id; c_id := selling_company_id |}.

End ArticleRest.

(** ** A sample account subsystem *)

Module SampleAccounts.
Import Session.

(** An account subsystem with one session, that of a buyer. *)
Definition one_buyer : Accounts :=
  {| Account := string; Buyer := string;
     Company := string;
     Account_getBySession := fun token =>
       if String.eqb token "abc123" then Return "alice"%string
       else Throw SessionTokenInvalideError;
     Buyer_getBySession := fun token =>
       if String.eqb token "abc123" then Return "alice"%string
       else Throw SessionTokenInvalideError;
     Buyer_getFromAccount := fun account => Return account;
     Company_getFromAccount := fun _ => Throw AccountTypeMismatch |}.

End SampleAccounts.

(** * Properties *)

(** ** Doubles *)

Module DoubleFacts.

Lemma round_half_even_bounds (p d : Z) :
  0 < d -> p / d <= round_half_even p d <= p / d + 1.
Proof.
  intros Hd. unfold round_half_even. cbv zeta.
  destruct (2 * (p mod d) <? d); [lia|].
  destruct (d <? 2 * (p mod d)); [lia|].
  destruct (Z.even (p / d)); lia.
Qed.

Lemma round_half_even_down (p d : Z) :
  2 * (p mod d) < d -> round_half_even p d = p / d.
Proof.
  intros H. unfold round_half_even. cbv zeta.
  now rewrite (proj2 (Z.ltb_lt _ _) H).
Qed.

Lemma round_half_even_up (p d : Z) :
  d < 2 * (p mod d) -> round_half_even p d = p / d + 1.
Proof.
  intros H. unfold round_half_even. cbv zeta.
  rewrite (proj2 (Z.ltb_ge _ _)) by lia.
  now rewrite (proj2 (Z.ltb_lt _ _) H).
Qed.

(** The rounded numerator of [x/d] at a scale [P] finer than [d/2] lies
    between the multiples of [P] that frame the quotient, and strictly
    inside when the division is not exact. *)
Lemma rounded_between (x d P : Z) :
  0 <= x -> 0 < d -> 0 < P -> d < 2 * P ->
  let m := round_half_even (x * P) d in
  (x / d) * P <= m < (x / d + 1) * P
  /\ (x mod d = 0 -> m = (x / d) * P)
  /\ (0 < x mod d -> (x / d) * P < m).
Proof.
  intros Hx Hd HP HdP m.
  pose proof (Z.div_mod x d ltac:(lia)) as Ex.
  pose proof (Z.mod_pos_bound x d Hd) as Hr.
  set (k := x / d) in *. set (r := x mod d) in *.
  pose proof (Z.div_mod (x * P) d ltac:(lia)) as Ep.
  pose proof (Z.mod_pos_bound (x * P) d Hd) as Hrm.
  pose proof (round_half_even_bounds (x * P) d Hd) as Hb. fold m in Hb.
  set (q := x * P / d) in *. set (rm := (x * P) mod d) in *.
  assert (Hq1 : k * P <= q) by nia.
  assert (Hq2 : q < (k + 1) * P) by nia.
  assert (Hup : m < (k + 1) * P).
  { destruct (Z_lt_le_dec (2 * rm) d) as [Hlt|Hge].
    - unfold m. rewrite round_half_even_down by exact Hlt. exact Hq2.
    - assert (q <= (k + 1) * P - 2) by nia. lia. }
  split; [lia|]. split.
  - intros Hr0. rewrite Hr0 in Ex.
    assert (Hq : q = k * P) by nia. assert (Hrm0 : rm = 0) by nia.
    unfold m. rewrite round_half_even_down by (fold rm; lia). exact Hq.
  - intros Hr0. destruct (Z.eq_dec q (k * P)) as [Hq|Hq]; [|lia].
    assert (Hrm1 : rm = r * P) by nia.
    unfold m. rewrite round_half_even_up by (fold rm; nia). fold q. lia.
Qed.

Lemma floor_of_rounded (x d s : Z) :
  0 <= x -> 0 < d -> 0 <= s -> d < 2 * 2 ^ s ->
  round_half_even (x * 2 ^ s) d / 2 ^ s = x / d.
Proof.
  intros Hx Hd Hs HdP.
  assert (HP : 0 < 2 ^ s) by (apply Z.pow_pos_nonneg; lia).
  destruct (rounded_between x d (2 ^ s) Hx Hd HP HdP) as [Hb _].
  symmetry. apply Z.div_unique with (r := round_half_even (x * 2 ^ s) d
                                          - x / d * 2 ^ s); lia.
Qed.

Lemma ceil_of_rounded (x d s : Z) :
  0 < x -> 0 < d -> 0 <= s -> d < 2 * 2 ^ s ->
  - ((round_half_even (x * 2 ^ s) d + 2 ^ s - 1) / 2 ^ s) = (- x) / d.
Proof.
  intros Hx Hd Hs HdP.
  assert (HP : 0 < 2 ^ s) by (apply Z.pow_pos_nonneg; lia).
  destruct (rounded_between x d (2 ^ s) ltac:(lia) Hd HP HdP)
    as (Hb & Hexact & Hstrict).
  pose proof (Z.div_mod x d ltac:(lia)) as Ex.
  pose proof (Z.mod_pos_bound x d Hd) as Hr.
  destruct (Z.eq_dec (x mod d) 0) as [Hr0|Hr0].
  - rewrite (Hexact Hr0).
    replace (x / d * 2 ^ s + 2 ^ s - 1) with (2 ^ s - 1 + x / d * 2 ^ s) by lia.
    rewrite Z.div_add by lia. rewrite Z.div_small by lia.
    apply Z.div_unique with (r := 0); lia.
  - specialize (Hstrict ltac:(lia)).
    replace ((round_half_even (x * 2 ^ s) d + 2 ^ s - 1) / 2 ^ s)
      with (x / d + 1).
    + apply Z.div_unique with (r := d - x mod d); lia.
    + apply Z.div_unique
        with (r := round_half_even (x * 2 ^ s) d - x / d * 2 ^ s - 1); lia.
Qed.

(** The scale chosen for a quotient: never below that of [x] against [d]. *)
Lemma nearest_scale (x d : Z) :
  52 + Z.log2 d - Z.log2 x <= snd (nearest x d).
Proof. unfold nearest. cbn [snd]. destruct (scaled_below _ _ _); lia. Qed.

Lemma small_scale (x d : Z) :
  0 < x < 2 ^ 53 -> 0 < d ->
  0 <= snd (nearest x d) /\ d < 2 * 2 ^ snd (nearest x d).
Proof.
  intros Hx Hd. pose proof (nearest_scale x d) as Hs.
  assert (Hlx : Z.log2 x < 53) by (apply Z.log2_lt_pow2; lia).
  pose proof (Z.log2_nonneg d) as Hld.
  pose proof (Z.log2_spec d Hd) as [_ Hdu].
  split; [lia|].
  apply Z.lt_le_trans with (1 := Hdu).
  replace (2 * 2 ^ snd (nearest x d)) with (2 ^ Z.succ (snd (nearest x d)))
    by (rewrite Z.pow_succ_r; lia).
  apply Z.pow_le_mono_r; lia.
Qed.

(** Below 2^53 in magnitude, the floor of the quotient computed in doubles
    is the floor of the exact quotient. *)
Lemma floor_div_exact (x d : Z) :
  - 2 ^ 53 < x < 2 ^ 53 -> 0 < d -> floor_div x d = x / d.
Proof.
  intros Hx Hd. unfold floor_div.
  destruct (Z.eqb_spec x 0) as [->|Hx0]; [reflexivity|].
  destruct (Z.ltb_spec 0 x) as [Hpos|Hneg].
  - destruct (small_scale x d ltac:(lia) Hd) as [Hs HdP].
    unfold nearest in *. cbn [snd] in Hs, HdP. unfold floor_of.
    set (s := if scaled_below _ _ _ then _ else _) in *.
    rewrite (proj2 (Z.leb_le 0 s) Hs). apply floor_of_rounded; lia.
  - destruct (small_scale (- x) d ltac:(lia) Hd) as [Hs HdP].
    unfold nearest in *. cbn [snd] in Hs, HdP. unfold ceil_of.
    set (s := if scaled_below _ _ _ then _ else _) in *.
    rewrite (proj2 (Z.leb_le 0 s) Hs).
    rewrite ceil_of_rounded by lia. f_equal. lia.
Qed.

Lemma to_double_exact (x : Z) : - 2 ^ 53 < x < 2 ^ 53 -> to_double x = x.
Proof.
  intros Hx. unfold to_double. rewrite floor_div_exact by lia.
  apply Z.div_1_r.
Qed.

(** The numerator of the nearest double is positive. *)
Lemma nearest_positive (x d : Z) :
  0 < x -> 0 < d -> 0 < fst (nearest x d).
Proof.
  intros Hx Hd. pose proof (nearest_scale x d) as Hs.
  pose proof (Z.log2_spec x Hx) as [Hxl _].
  pose proof (Z.log2_spec d Hd) as [_ Hdu].
  pose proof (Z.log2_nonneg x) as Hlx. pose proof (Z.log2_nonneg d) as Hld.
  unfold nearest in *. cbn [fst snd] in *.
  set (s := if scaled_below _ _ _ then _ else _) in *.
  destruct (Z.leb_spec 0 s) as [Hs0|Hs0].
  - assert (Hge : d <= x * 2 ^ s).
    { assert (H1 : 2 ^ (Z.log2 x + s) <= x * 2 ^ s).
      { rewrite Z.pow_add_r by lia. apply Z.mul_le_mono_nonneg_r; [|exact Hxl].
        apply Z.pow_nonneg; lia. }
      assert (H2 : 2 ^ Z.succ (Z.log2 d) <= 2 ^ (Z.log2 x + s))
        by (apply Z.pow_le_mono_r; lia).
      lia. }
    pose proof (round_half_even_bounds (x * 2 ^ s) d Hd) as [Hb _].
    assert (1 <= x * 2 ^ s / d) by (apply Z.div_le_lower_bound; lia). lia.
  - assert (HP : 0 < 2 ^ (- s)) by (apply Z.pow_pos_nonneg; lia).
    assert (Hge : d * 2 ^ (- s) <= x).
    { assert (H1 : d * 2 ^ (- s) <= 2 ^ Z.succ (Z.log2 d) * 2 ^ (- s))
        by (apply Z.mul_le_mono_nonneg_r; lia).
      rewrite <- Z.pow_add_r in H1 by lia.
      assert (H2 : 2 ^ (Z.succ (Z.log2 d) + - s) <= 2 ^ Z.log2 x)
        by (apply Z.pow_le_mono_r; lia).
      lia. }
    pose proof (round_half_even_bounds x (d * 2 ^ (- s)) ltac:(lia)) as [Hb _].
    assert (1 <= x / (d * 2 ^ (- s))) by (apply Z.div_le_lower_bound; lia).
    lia.
Qed.

(** Rounding and flooring keep the sign. *)
Lemma floor_div_negative (x d : Z) : x < 0 -> 0 < d -> floor_div x d < 0.
Proof.
  intros Hx Hd. unfold floor_div.
  rewrite (proj2 (Z.eqb_neq x 0)) by lia.
  rewrite (proj2 (Z.ltb_ge 0 x)) by lia.
  pose proof (nearest_positive (- x) d ltac:(lia) Hd) as Hm.
  destruct (nearest (- x) d) as [m s]. cbn [fst] in Hm. unfold ceil_of.
  destruct (Z.leb_spec 0 s) as [Hs|Hs].
  - assert (HP : 0 < 2 ^ s) by (apply Z.pow_pos_nonneg; lia).
    assert (1 <= (m + 2 ^ s - 1) / 2 ^ s)
      by (apply Z.div_le_lower_bound; lia). lia.
  - assert (HP : 0 < 2 ^ (- s)) by (apply Z.pow_pos_nonneg; lia). nia.
Qed.

Lemma floor_div_nonneg (x d : Z) : 0 <= x -> 0 < d -> 0 <= floor_div x d.
Proof.
  intros Hx Hd. unfold floor_div.
  destruct (Z.eqb_spec x 0) as [->|Hx0]; [lia|].
  rewrite (proj2 (Z.ltb_lt 0 x)) by lia.
  pose proof (nearest_positive x d ltac:(lia) Hd) as Hm.
  destruct (nearest x d) as [m s]. cbn [fst] in Hm. unfold floor_of.
  destruct (Z.leb_spec 0 s) as [Hs|Hs].
  - apply Z.div_pos; [lia | apply Z.pow_pos_nonneg; lia].
  - assert (HP : 0 < 2 ^ (- s)) by (apply Z.pow_pos_nonneg; lia). nia.
Qed.

Lemma floor_div_nonpos (x d : Z) : x <= 0 -> 0 < d -> floor_div x d <= 0.
Proof.
  intros Hx Hd. destruct (Z.eq_dec x 0) as [->|Hx0]; [reflexivity|].
  pose proof (floor_div_negative x d ltac:(lia) Hd). lia.
Qed.

Lemma minus_exact (a b : Z) :
  - 2 ^ 53 < a - b < 2 ^ 53 -> minus a b = a - b.
Proof. apply to_double_exact. Qed.

Lemma minus_negative (a b : Z) : a < b -> minus a b < 0.
Proof. intros H. apply floor_div_negative; lia. Qed.

Lemma minus_nonpos (a b : Z) : a <= b -> minus a b <= 0.
Proof. intros H. apply floor_div_nonpos; lia. Qed.

End DoubleFacts.

Module DateDiffFacts.
Import DateDiff DoubleFacts.

Lemma remainder_nonneg (a b : Z) :
  0 <= a -> 0 < b -> 0 <= remainder a b < b.
Proof.
  intros Ha Hb. unfold remainder.
  rewrite Z.rem_mod_nonneg by lia. apply Z.mod_pos_bound; lia.
Qed.

(** The part of [a] that a truncated division by [b] keeps lies between 0
    and [a]. *)
Lemma quot_part (a b : Z) :
  0 < b ->
  a - Z.rem a b = Z.quot a b * b
  /\ Z.abs (Z.quot a b * b) <= Z.abs a /\ Z.abs (Z.quot a b) <= Z.abs a.
Proof.
  intros Hb. pose proof (Z.quot_rem' a b) as E.
  destruct (Z_le_gt_dec 0 a) as [Ha|Ha].
  - pose proof (Z.rem_bound_pos a b Ha Hb).
    assert (0 <= Z.quot a b) by (apply Z.quot_pos; lia).
    split; [lia|]. split; nia.
  - pose proof (Z.rem_nonpos a b ltac:(lia) ltac:(lia)).
    assert (Z.quot a b <= 0) by (apply Z.quot_le_upper_bound; lia).
    split; [lia|]. split; nia.
Qed.

(** Peeling one unit off a number below 2^53: the doubles compute the
    truncated quotient, whatever the sign. *)
Lemma peel_small (a b : Z) :
  - 2 ^ 53 < a < 2 ^ 53 -> 0 < b ->
  floor_div (minus a (remainder a b)) b = Z.quot a b.
Proof.
  intros Ha Hb. unfold remainder.
  destruct (quot_part a b Hb) as (E & Hq & _).
  rewrite minus_exact by lia. rewrite E.
  rewrite floor_div_exact by lia. apply Z.div_mul. lia.
Qed.

(** For two dates less than 2^53 ms apart, every step of [dateDiff] is
    exact: the first division is the floor of the exact quotient, the three
    later ones are truncated divisions. *)
Lemma dateDiff_small (date1 date2 : Date) :
  - 2 ^ 53 < getTime date1 - getTime date2 < 2 ^ 53 ->
  let s := (getTime date1 - getTime date2) / 1000 in
  dateDiff date1 date2
  = {| sec := Z.rem s 60;
       min := Z.rem (Z.quot s 60) 60;
       hour := Z.rem (Z.quot (Z.quot s 60) 60) 24;
       day := Z.quot (Z.quot (Z.quot s 60) 60) 24 |}.
Proof.
  intros Hd s. unfold dateDiff. cbv zeta.
  rewrite minus_exact by exact Hd.
  rewrite floor_div_exact by lia. fold s.
  assert (Hs : - 2 ^ 53 < s < 2 ^ 53).
  { unfold s. split.
    - apply Z.lt_le_trans with (m := (- 2 ^ 53) / 1000); [reflexivity|].
      apply Z.div_le_mono; lia.
    - apply Z.div_lt_upper_bound; lia. }
  pose proof (quot_part s 60 ltac:(lia)) as (_ & _ & H1).
  pose proof (quot_part (Z.quot s 60) 60 ltac:(lia)) as (_ & _ & H2).
  rewrite (peel_small s 60) by lia.
  rewrite (peel_small (Z.quot s 60) 60) by lia.
  rewrite (peel_small (Z.quot (Z.quot s 60) 60) 24) by lia.
  reflexivity.
Qed.

(** A decomposition by truncated divisions loses nothing. *)
Lemma recompose_quot_rem (s : Z) :
  recompose {| sec := Z.rem s 60;
               min := Z.rem (Z.quot s 60) 60;
               hour := Z.rem (Z.quot (Z.quot s 60) 60) 24;
               day := Z.quot (Z.quot (Z.quot s 60) 60) 24 |} = s.
Proof.
  unfold recompose. cbn [sec min hour day].
  pose proof (Z.quot_rem' s 60).
  pose proof (Z.quot_rem' (Z.quot s 60) 60).
  pose proof (Z.quot_rem' (Z.quot (Z.quot s 60) 60) 24).
  lia.
Qed.

(** Below 2^53 ms the decomposition loses nothing, for either order of the
    two dates. *)
Lemma recompose_dateDiff (date1 date2 : Date) :
  - 2 ^ 53 < getTime date1 - getTime date2 < 2 ^ 53 ->
  recompose (dateDiff date1 date2) = seconds_between date1 date2.
Proof.
  intros Hd. rewrite (dateDiff_small date1 date2 Hd).
  apply recompose_quot_rem.
Qed.

(** At the input that breaks C4: two valid dates more than 2^53 ms apart.
    The difference, 17279999999999999, is no double; the subtraction rounds
    it to 17280000000000000, and the decomposition carries one second more
    than the whole number of seconds between the two instants. *)
Lemma dateDiff_beyond_2_53 :
  let A := {| getTime := 8640000000000000 |} in
  let B := {| getTime := -8639999999999999 |} in
  let d := dateDiff A B in
  getTime B <= getTime A
  /\ d = {| sec := 0; min := 0; hour := 0; day := 200000000 |}
  /\ (getTime A - getTime B) / 1000 = 17279999999999
  /\ ((day d * 24 + hour d) * 60 + min d) * 60 + sec d
     <> (getTime A - getTime B) / 1000.
Proof.
  cbv zeta. split; [cbn; lia|]. split; [vm_compute; reflexivity|].
  split; [reflexivity|]. vm_compute. discriminate.
Qed.

(** C4, amended: for instants A >= B less than 2^53 ms apart,
    [dateDiff A B] has its hour in 0..23, its minute and second in 0..59,
    and rebuilds the whole number of seconds between the two instants:
    [((day*24 + hour)*60 + min)*60 + sec = floor((A - B) / 1000)]. *)
Theorem dateDiff_reconstructs (A B : Date) :
  getTime B <= getTime A ->
  getTime A - getTime B < 2 ^ 53 ->
  let d := dateDiff A B in
  0 <= hour d <= 23 /\ 0 <= min d <= 59 /\ 0 <= sec d <= 59 /\
  ((day d * 24 + hour d) * 60 + min d) * 60 + sec d
    = (getTime A - getTime B) / 1000.
Proof.
  intros Hle Hlt.
  assert (Hd : - 2 ^ 53 < getTime A - getTime B < 2 ^ 53) by lia.
  cbv zeta. rewrite (dateDiff_small A B Hd). cbv zeta.
  cbn [sec min hour day].
  set (s := (getTime A - getTime B) / 1000).
  assert (Hs : 0 <= s) by (apply Z.div_pos; lia).
  pose proof (Z.rem_bound_pos s 60 Hs ltac:(lia)) as R1.
  assert (Q1 : 0 <= Z.quot s 60) by (apply Z.quot_pos; lia).
  pose proof (Z.rem_bound_pos (Z.quot s 60) 60 Q1 ltac:(lia)) as R2.
  assert (Q2 : 0 <= Z.quot (Z.quot s 60) 60) by (apply Z.quot_pos; lia).
  pose proof (Z.rem_bound_pos _ 24 Q2 ltac:(lia)) as R3.
  pose proof (Z.quot_rem' s 60).
  pose proof (Z.quot_rem' (Z.quot s 60) 60).
  pose proof (Z.quot_rem' (Z.quot (Z.quot s 60) 60) 24).
  repeat split; lia.
Qed.

Lemma dateDiff_reconstructs_witness :
  let A := {| getTime := 93784999 |} in
  let B := {| getTime := 0 |} in
  dateDiff A B = {| sec := 4; min := 3; hour := 2; day := 1 |} /\
  ((1 * 24 + 2) * 60 + 3) * 60 + 4 = (getTime A - getTime B) / 1000.
Proof.
  intros A B. split; [vm_compute; reflexivity|].
  exact (proj2 (proj2 (proj2
    (dateDiff_reconstructs A B ltac:(cbn; lia) ltac:(cbn; lia))))).
Defined.

End DateDiffFacts.

Module CookieFacts.
Import Cookie.

Lemma append_empty_r (s : string) : s ++ "" = s.
Proof. induction s as [|c s IH]; cbn; [reflexivity | now rewrite IH]. Qed.

(** The value is the mandatory part followed by the three fragments, in the
    order of the three statements of the source. *)
Lemma cookie_value_fragments (cookie : Cookie) :
  cookie_value cookie
  = (((name cookie ++ "=" ++ value cookie ++ ";")
        ++ maxAge_fragment cookie) ++ secure_fragment cookie)
      ++ path_fragment cookie.
Proof. reflexivity. Qed.

(** Each fragment is decided by its field: it is empty exactly when the
    field is absent or falsy, and otherwise it is the fragment of the value
    of the field. *)
Lemma maxAge_fragment_cases (cookie : Cookie) :
  (maxAge_fragment cookie = ""
   /\ (maxAge cookie = None \/ maxAge cookie = Some 0))
  \/ exists n, maxAge cookie = Some n /\ n <> 0
               /\ maxAge_fragment cookie = " Max-Age=" ++ to_string n ++ ";".
Proof.
  unfold maxAge_fragment. destruct (maxAge cookie) as [n|].
  - unfold truthy, truthy_optional, truthy, truthy_number.
    destruct (Z.eqb_spec n 0) as [->|Hn]; cbn [negb].
    + left. split; [reflexivity | now right].
    + right. exists n. repeat split. exact Hn.
  - left. split; [reflexivity | now left].
Qed.

Lemma secure_fragment_cases (cookie : Cookie) :
  (secure_fragment cookie = ""
   /\ (secure cookie = None \/ secure cookie = Some false))
  \/ (secure cookie = Some true /\ secure_fragment cookie = " Secure;").
Proof.
  unfold secure_fragment. destruct (secure cookie) as [[|]|]; cbn; auto.
Qed.

Lemma path_fragment_cases (cookie : Cookie) :
  (path_fragment cookie = ""
   /\ (path cookie = None \/ path cookie = Some ""))
  \/ exists p, path cookie = Some p /\ p <> ""
               /\ path_fragment cookie = " Path=" ++ p ++ ";".
Proof.
  unfold path_fragment. destruct (path cookie) as [[|c p]|]; cbn; auto.
  right. exists (String c p). repeat split. discriminate.
Qed.

(** C8: [addCookie] appends exactly one [Set-Cookie] entry; its value is
    [name=value;] followed by the fragments [ Max-Age=<n>;], [ Secure;] and
    [ Path=<p>;] in that order. Each fragment is decided by its field: it
    is missing exactly when the field is absent or falsy ([maxAge] 0,
    [secure] false, an empty [path]), and otherwise it is written with the
    value of the field; with only a name and a value the entry is exactly
    [name=value;]. *)
Theorem addCookie_format (headers : Headers) (cookie : Cookie) :
  (exists fm fs fp : string,
      addCookie headers cookie
      = (headers ++ [("Set-Cookie",
           ((((name cookie ++ "=" ++ value cookie ++ ";") ++ fm) ++ fs) ++ fp)%string)])%list
      /\ ((fm = "" /\ (maxAge cookie = None \/ maxAge cookie = Some 0))
          \/ exists n, maxAge cookie = Some n /\ n <> 0
                       /\ fm = " Max-Age=" ++ to_string n ++ ";")
      /\ ((fs = "" /\ (secure cookie = None \/ secure cookie = Some false))
          \/ (secure cookie = Some true /\ fs = " Secure;"))
      /\ ((fp = "" /\ (path cookie = None \/ path cookie = Some ""))
          \/ exists p, path cookie = Some p /\ p <> ""
                       /\ fp = " Path=" ++ p ++ ";"))
  /\ addCookie headers {| name := name cookie; value := value cookie;
                          maxAge := None; secure := None; path := None |}
     = (headers ++ [("Set-Cookie",
                     (name cookie ++ "=" ++ value cookie ++ ";")%string)])%list.
Proof.
  split.
  - exists (maxAge_fragment cookie), (secure_fragment cookie),
      (path_fragment cookie).
    split; [reflexivity|].
    split; [apply maxAge_fragment_cases|].
    split; [apply secure_fragment_cases | apply path_fragment_cases].
  - unfold addCookie, append. rewrite cookie_value_fragments. cbn.
    now rewrite !append_empty_r.
Qed.

(** A field that is present and truthy does bring its fragment. *)
Lemma addCookie_all_fields (headers : Headers) :
  addCookie headers {| name := "sid"; value := "42"; maxAge := Some 3600;
                       secure := Some true; path := Some "/" |}
  = (headers ++ [("Set-Cookie", "sid=42; Max-Age=3600; Secure; Path=/;")])%list.
Proof. reflexivity. Qed.

(** The number of [Max-Age] is written as a template literal writes it: a
    negative number with its sign, and a number of 22 digits or more in
    exponent form. *)
Lemma addCookie_maxAge_digits (headers : Headers) :
  addCookie headers {| name := "sid"; value := "42"; maxAge := Some (-5);
                       secure := None; path := None |}
  = (headers ++ [("Set-Cookie", "sid=42; Max-Age=-5;")])%list
  /\ addCookie headers {| name := "sid"; value := "42";
                          maxAge := Some (10 ^ 21);
                          secure := None; path := None |}
     = (headers ++ [("Set-Cookie", "sid=42; Max-Age=1e+21;")])%list
  /\ addCookie headers {| name := "sid"; value := "42";
                          maxAge := Some (2 ^ 64);
                          secure := None; path := None |}
     = (headers ++ [("Set-Cookie",
                     "sid=42; Max-Age=18446744073709552000;")])%list.
Proof. repeat split; vm_compute; reflexivity. Qed.

Lemma cookie_value_congr (c1 c2 : Cookie) :
  name c1 = name c2 -> value c1 = value c2 ->
  maxAge_fragment c1 = maxAge_fragment c2 ->
  secure_fragment c1 = secure_fragment c2 ->
  path_fragment c1 = path_fragment c2 ->
  cookie_value c1 = cookie_value c2.
Proof.
  intros Hn Hv Hm Hs Hp. rewrite !cookie_value_fragments.
  now rewrite Hn, Hv, Hm, Hs, Hp.
Qed.

(** C9: a field that is present but falsy ([maxAge] 0, [secure] false, an
    empty [path]) brings no fragment: the entry is the one written when the
    field is absent, and [{name, value, maxAge: 0}] gives exactly
    [name=value;]. *)
Theorem addCookie_falsy_fields (headers : Headers) (n v : string)
    (m : option Z) (s : option bool) (p : option string) :
  addCookie headers {| name := n; value := v; maxAge := Some 0;
                       secure := s; path := p |}
  = addCookie headers {| name := n; value := v; maxAge := None;
                         secure := s; path := p |}
  /\ addCookie headers {| name := n; value := v; maxAge := m;
                          secure := Some false; path := p |}
     = addCookie headers {| name := n; value := v; maxAge := m;
                            secure := None; path := p |}
  /\ addCookie headers {| name := n; value := v; maxAge := m;
                          secure := s; path := Some "" |}
     = addCookie headers {| name := n; value := v; maxAge := m;
                            secure := s; path := None |}
  /\ addCookie headers {| name := n; value := v; maxAge := Some 0;
                          secure := None; path := None |}
     = (headers ++ [("Set-Cookie", (n ++ "=" ++ v ++ ";")%string)])%list.
Proof.
  unfold addCookie, append.
  repeat split; try (f_equal; f_equal; f_equal;
                     apply cookie_value_congr; reflexivity).
  rewrite cookie_value_fragments. cbn. now rewrite !append_empty_r.
Qed.

End CookieFacts.

Module SessionFacts.
Import Cookie Session.

Lemma strip_prefix_some (p s r : string) :
  strip_prefix p s = Some r -> s = p ++ r.
Proof.
  revert s. induction p as [|a p IH]; intros s H; cbn in *.
  - now inversion H.
  - destruct s as [|b s]; [discriminate|].
    destruct (Ascii.eqb_spec a b) as [->|]; [|discriminate].
    cbn. f_equal. now apply IH.
Qed.

Lemma value_semicolon_some (s v : string) :
  value_semicolon s = Some v ->
  has_char ";" v = false /\ exists post, s = v ++ ";" ++ post.
Proof.
  revert v. induction s as [|c s IH]; intros v H; cbn in H; [discriminate|].
  destruct (Ascii.eqb_spec c ";") as [->|Hc].
  - inversion H; subst. split; [reflexivity | now exists s].
  - destruct (value_semicolon s) as [v'|]; [|discriminate].
    inversion H; subst. destruct (IH v' eq_refl) as [Hv [post ->]].
    split; [|now exists post].
    cbn. rewrite Hv. now destruct (Ascii.eqb_spec c ";").
Qed.

Lemma value_semicolon_found (v post : string) :
  has_char ";" v = false -> value_semicolon (v ++ ";" ++ post) = Some v.
Proof.
  induction v as [|c v IH]; intros H; cbn in *; [reflexivity|].
  destruct (Ascii.eqb c ";"); [discriminate|].
  cbn in H. now rewrite IH.
Qed.

Lemma match_here_some (s : string) (m : MatchArray) :
  match_here s = Some m ->
  exists v post, Matches s "" v post /\ m = ("token=" ++ v ++ ";", v).
Proof.
  unfold match_here. intros H.
  destruct (strip_prefix "token=" s) as [rest|] eqn:Hp; [|discriminate].
  apply strip_prefix_some in Hp.
  destruct (value_semicolon rest) as [v|] eqn:Hv; [|discriminate].
  inversion H; subst m. apply value_semicolon_some in Hv.
  destruct Hv as [Hv [post ->]].
  exists v, post. split; [|reflexivity]. split; [exact Hp | exact Hv].
Qed.

(** What [match] returns is a word of the pattern found in the string. *)
Lemma match_token_sound (s : string) (m : MatchArray) :
  match_token s = Some m ->
  exists pre v post, Matches s pre v post /\ m = ("token=" ++ v ++ ";", v).
Proof.
  induction s as [|c s IH]; cbn [match_token]; intros H.
  - destruct (match_here "") eqn:E; [|discriminate].
    inversion H; subst. apply match_here_some in E.
    destruct E as (v & post & Hm & ->). now exists "", v, post.
  - destruct (match_here (String c s)) eqn:E.
    + inversion H; subst. apply match_here_some in E.
      destruct E as (v & post & Hm & ->). now exists "", v, post.
    + destruct (IH H) as (pre & v & post & [Hs Hv] & ->).
      exists (String c pre), v, post. split; [|reflexivity].
      split; [cbn; now rewrite Hs | exact Hv].
Qed.

Lemma strip_prefix_app (p r : string) : strip_prefix p (p ++ r) = Some r.
Proof.
  induction p as [|a p IH]; cbn; [now destruct r|].
  now rewrite Ascii.eqb_refl.
Qed.

Lemma match_here_found (v post : string) :
  has_char ";" v = false ->
  match_here ("token=" ++ v ++ ";" ++ post) = Some ("token=" ++ v ++ ";", v).
Proof.
  intros Hv. unfold match_here.
  rewrite strip_prefix_app, value_semicolon_found by exact Hv.
  reflexivity.
Qed.

Lemma match_token_here (s : string) (m : MatchArray) :
  match_here s = Some m -> match_token s = Some m.
Proof. intros H. destruct s; cbn [match_token]; now rewrite H. Qed.

(** And [match] returns [null] only when the string holds no such word. *)
Lemma match_token_complete (s pre v post : string) :
  Matches s pre v post -> match_token s <> None.
Proof.
  intros [-> Hv]. induction pre as [|c pre IH].
  - change ("" ++ "token=" ++ v ++ ";" ++ post)
      with ("token=" ++ v ++ ";" ++ post).
    rewrite (match_token_here _ _ (match_here_found v post Hv)).
    discriminate.
  - change (String c pre ++ "token=" ++ v ++ ";" ++ post)
      with (String c (pre ++ "token=" ++ v ++ ";" ++ post)).
    cbn [match_token].
    destruct (match_here _); [discriminate | exact IH].
Qed.

Lemma resolve_absent {A} (lookup : string -> Outcome A) (headers : Headers) :
  get headers "cookie" = None ->
  resolve lookup headers = Throw SessionTokenInvalideError.
Proof. unfold resolve. now intros ->. Qed.

Lemma resolve_no_match {A} (lookup : string -> Outcome A)
    (headers : Headers) (cookies : string) :
  get headers "cookie" = Some cookies -> cookies <> "" ->
  match_token (normalize cookies) = None ->
  resolve lookup headers = Throw TypeError.
Proof.
  unfold resolve. intros -> Hne ->.
  destruct cookies; [contradiction | reflexivity].
Qed.

Lemma resolve_match {A} (lookup : string -> Outcome A)
    (headers : Headers) (cookies : string) (m : MatchArray) :
  get headers "cookie" = Some cookies -> cookies <> "" ->
  match_token (normalize cookies) = Some m ->
  resolve lookup headers = lookup (snd m).
Proof.
  unfold resolve. intros -> Hne ->.
  destruct cookies; [contradiction | reflexivity].
Qed.

(** The two parts of the contract that the code keeps: no [cookie] header
    is a [SessionTokenInvalideError], and the token of
    [token=abc123;other=x;] is [abc123]. *)
Lemma session_absent_and_present (acc : Accounts) (headers : Headers) :
  (get headers "cookie" = None ->
   getAccountBySession acc headers = Throw SessionTokenInvalideError /\
   getBuyerBySession acc headers = Throw SessionTokenInvalideError)
  /\ getAccountBySession acc [("cookie", "token=abc123;other=x;")]
     = Account_getBySession acc "abc123"
  /\ getBuyerBySession acc [("cookie", "token=abc123;other=x;")]
     = Buyer_getBySession acc "abc123".
Proof.
  split; [|split; reflexivity].
  intros H. split; now apply resolve_absent.
Qed.

(** C2, at the input that breaks it: a [cookie] header that is present and
    holds no [token=] entry. The pattern finds nothing, [match] returns
    [null], and reading its [length] throws a [TypeError] before the
    [SessionTokenInvalideError] of the last line is reached. *)
Theorem session_without_token_entry (acc : Accounts) :
  has_token_key "other=x" = false
  /\ match_token (normalize "other=x") = None
  /\ getAccountBySession acc [("cookie", "other=x")] = Throw TypeError
  /\ getBuyerBySession acc [("cookie", "other=x")] = Throw TypeError
  /\ getBuyerFromAccountSession acc [("cookie", "other=x")] = Throw TypeError.
Proof. repeat split. Qed.

(** C10: there is a cookie header with no key [token] from which a token
    is extracted all the same: in [mytoken=evil;] the pattern finds
    [token=] inside another key, and the lookup is made with [evil]. *)
Theorem token_inside_other_key :
  exists cookies : string,
    has_token_key cookies = false
    /\ option_map capture1 (match_token (normalize cookies)) = Some "evil"
    /\ forall acc : Accounts,
        getAccountBySession acc [("cookie", cookies)]
        = Account_getBySession acc "evil"
        /\ getBuyerBySession acc [("cookie", cookies)]
           = Buyer_getBySession acc "evil".
Proof.
  exists "mytoken=evil;". repeat split.
Qed.

End SessionFacts.

Module ArticleFacts.
Import DateDiff Store Article.
Local Open Scope list_scope.
Local Open Scope store_scope.

(** *** Reading *)

Lemma view_pool (w : World) : view Pool w = committed w.
Proof. reflexivity. Qed.

(** The loop of [getFromResult] appends the paths of the image rows, in
    their order, and touches no other field. *)
Lemma fold_push_img_path (imgs : list ImageRow) (article : Article) :
  fold_left push_img_path imgs article
  = {| id := id article; name := name article;
       description := description article; price := price article;
       min_bidding := min_bidding article;
       auction_start := auction_start article;
       auction_end := auction_end article;
       img_paths := img_paths article ++ map img_path imgs;
       tmdb_movie_id := tmdb_movie_id article;
       selling_company_id := selling_company_id article |}.
Proof.
  revert article. induction imgs as [|image imgs IH]; intros article.
  - cbn. rewrite app_nil_r. now destruct article.
  - cbn [fold_left]. rewrite IH. cbn. now rewrite <- app_assoc.
Qed.

Lemma getFromResult_entity (row : ArticleRow) (w : World) :
  getFromResult row w = (Return (entity (committed w) row), w).
Proof.
  unfold getFromResult, bind, query, ret. rewrite view_pool.
  now rewrite fold_push_img_path.
Qed.

Lemma push_each_getFromResult (rows : list ArticleRow) (acc : list Article)
    (w : World) :
  push_each rows getFromResult acc w
  = (Return (acc ++ map (entity (committed w)) rows), w).
Proof.
  revert acc. induction rows as [|row rows IH]; intros acc.
  - cbn. now rewrite app_nil_r.
  - cbn [push_each]. unfold bind at 1. rewrite getFromResult_entity.
    rewrite IH. cbn. now rewrite <- app_assoc.
Qed.

Lemma filter_nil_iff {A} (f : A -> bool) (l : list A) :
  filter f l = [] <-> forall x, In x l -> f x = false.
Proof.
  induction l as [|a l IH]; cbn.
  - split; [intros _ x [] | reflexivity].
  - destruct (f a) eqn:E; split.
    + discriminate.
    + intros H. specialize (H a (or_introl eq_refl)). congruence.
    + intros H x [<-|Hx]; [exact E | now apply (proj1 IH)].
    + intros H. apply (proj2 IH). intros x Hx. apply H. now right.
Qed.

(** C6: [get] of an id that no article row has throws
    [ArticleInexistantError]; [get] of an id that some row has returns an
    article whose image paths are the [img_path] of every [article_image]
    row of that id, in the order of the rows. *)
Theorem get_found_or_not (id : Z) (w : World) :
  ((forall row, In row (article (committed w)) -> art_id row <> id) ->
   get id w = (Throw (ArticleInexistantError id), w))
  /\
  ((exists row, In row (article (committed w)) /\ art_id row = id) ->
   exists a : Article,
     get id w = (Return a, w)
     /\ Article.id a = Some id
     /\ img_paths a
        = map img_path
              (filter (fun image => image_art_id image =? id)
                      (article_image (committed w)))).
Proof.
  unfold get, bind, query. cbv beta.
  change (view Database_get w) with (committed w).
  split.
  - intros Hnone.
    assert (E : select_article id (committed w) = []).
    { apply filter_nil_iff. intros row Hrow.
      apply Z.eqb_neq. now apply Hnone. }
    now rewrite E.
  - intros (row & Hin & Hid).
    destruct (select_article id (committed w)) as [|r rest] eqn:E.
    + exfalso. pose proof (proj1 (filter_nil_iff _ _) E row Hin) as Hf.
      cbn in Hf. apply Z.eqb_neq in Hf. contradiction.
    + assert (Hr : art_id r = id).
      { assert (Hin' : In r (select_article id (committed w)))
          by (rewrite E; now left).
        apply filter_In in Hin'. now apply Z.eqb_eq. }
      exists (entity (committed w) r).
      replace (Z.of_nat (List.length (r :: rest)) =? 0) with false
        by (symmetry; apply Z.eqb_neq; cbn [List.length]; lia).
      cbn [row_at nth_error ret]. rewrite getFromResult_entity.
      cbn. now rewrite Hr.
Qed.

(** [getAll] maps every row of [article], in order. *)
Lemma getAll_entities (w : World) :
  getAll w
  = (Return (map (entity (committed w)) (article (committed w))), w).
Proof.
  unfold getAll, bind, query. cbv beta.
  change (view Database_get w) with (committed w).
  now rewrite push_each_getFromResult.
Qed.

(** C5: with the search string [@all], [getBySearch] returns what [getAll]
    returns, every article of the table, whatever [limit] and [offset]
    are. *)
Theorem getBySearch_all
    (ranked_matches : string -> Tables -> list ArticleRow)
    (params params' : Params) (w : World) :
  getBySearch ranked_matches "@all" params w = getAll w
  /\ getBySearch ranked_matches "@all" params w
     = (Return (map (entity (committed w)) (article (committed w))), w)
  /\ getBySearch ranked_matches "@all" params' w
     = getBySearch ranked_matches "@all" params w.
Proof.
  repeat split. change (getBySearch ranked_matches "@all" params w)
    with (getAll w). apply getAll_entities.
Qed.

(** C7: an article with an image returns the first one and makes no
    request to the movie provider; an article without image whose poster
    request fails returns the placeholder path, not the failure. *)
Theorem getPoster_first_or_placeholder
    (TMDB_getMoviePosterURL : option Z -> string -> Outcome string)
    (this : Article) (w : World) :
  (forall first rest, img_paths this = first :: rest ->
     getPoster TMDB_getMoviePosterURL this w = (Return first, w))
  /\
  (forall e, img_paths this = [] ->
     TMDB_getMoviePosterURL (tmdb_movie_id this) "w342"%string = Throw e ->
     fst (getPoster TMDB_getMoviePosterURL this w)
     = Return "/img/article/placeholder.jpg"%string).
Proof.
  unfold getPoster. split.
  - now intros first rest ->.
  - intros e -> He. unfold catch, getMoviePosterURL. now rewrite He.
Qed.

Lemma get_found_or_not_witness :
  get 9 Sample.auction = (Throw (ArticleInexistantError 9), Sample.auction)
  /\ exists a : Article,
       get 1 Sample.auction = (Return a, Sample.auction)
       /\ img_paths a
          = ["/img/article/1-a.jpg"%string; "/img/article/1-b.jpg"%string].
Proof.
  split.
  - apply (proj1 (get_found_or_not 9 Sample.auction)).
    intros row Hrow. cbn in Hrow.
    destruct Hrow as [<-|[<-|[]]]; cbn; lia.
  - destruct (proj2 (get_found_or_not 1 Sample.auction)) as (a & E & _ & Hi).
    + exists (Sample.poster 1). split; [cbn; auto | reflexivity].
    + exists a. split; [exact E | exact Hi].
Defined.

Lemma getPoster_first_or_placeholder_witness :
  getPoster Sample.no_poster
            (entity Sample.auction_tables (Sample.poster 1)) Sample.auction
  = (Return "/img/article/1-a.jpg"%string, Sample.auction)
  /\ fst (getPoster Sample.no_poster
                    (entity Sample.empty_tables (Sample.poster 1))
                    Sample.fresh)
     = Return "/img/article/placeholder.jpg"%string.
Proof.
  split.
  - apply (proj1 (getPoster_first_or_placeholder Sample.no_poster
                    (entity Sample.auction_tables (Sample.poster 1))
                    Sample.auction)
                 "/img/article/1-a.jpg"%string
                 ["/img/article/1-b.jpg"%string]).
    reflexivity.
  - apply (proj2 (getPoster_first_or_placeholder Sample.no_poster
                    (entity Sample.empty_tables (Sample.poster 1))
                    Sample.fresh)
                 ProviderError); reflexivity.
Defined.

(** *** The ranking of [mostBids] *)

Lemma or_else_zero (a : Z) : or_else a 0 = a.
Proof.
  unfold or_else, truthy, truthy_number.
  destruct (Z.eqb_spec a 0); cbn; congruence.
Qed.

Lemma or_else_nonneg (a b : Z) : 0 <= a -> 0 <= b -> 0 <= or_else a b.
Proof. unfold or_else. destruct (truthy a); lia. Qed.

Section Ranking.
Variable key : Z -> Z.

Let above (a b : Z) : Prop := key b <= key a.

Lemma insert_desc_perm (x : Z) (l : list Z) :
  Permutation (insert_desc key x l) (x :: l).
Proof.
  induction l as [|y l IH]; cbn; [reflexivity|].
  destruct (key y <=? key x); [reflexivity|].
  rewrite IH. apply perm_swap.
Qed.

Lemma order_desc_perm (l : list Z) : Permutation (order_desc key l) l.
Proof.
  induction l as [|x l IH]; cbn; [reflexivity|].
  rewrite insert_desc_perm. now constructor.
Qed.

Lemma insert_desc_sorted (x : Z) (l : list Z) :
  StronglySorted above l -> StronglySorted above (insert_desc key x l).
Proof.
  induction 1 as [|y l Hs IH Hy]; cbn.
  - repeat constructor.
  - destruct (Z.leb_spec (key y) (key x)) as [Hle|Hlt].
    + constructor; [now constructor|].
      constructor; [exact Hle|].
      eapply Forall_impl; [|exact Hy]. unfold above. intros z Hz. lia.
    + constructor; [exact IH|].
      eapply Permutation_Forall;
        [symmetry; apply insert_desc_perm|].
      constructor; [unfold above; lia | exact Hy].
Qed.

Lemma order_desc_sorted (l : list Z) :
  StronglySorted above (order_desc key l).
Proof.
  induction l as [|x l IH]; cbn; [constructor|].
  now apply insert_desc_sorted.
Qed.

End Ranking.

Lemma bid_ranking_groups (order : RowOrder) (t : Tables) :
  Permutation (bid_ranking order t) (bid_groups t).
Proof.
  eapply perm_trans; [apply order_desc_perm | apply groups_permutation].
Qed.

Lemma bid_groups_in (t : Tables) (i : Z) :
  In i (bid_groups t) <-> exists b, In b (bid t) /\ bid_art_id b = i.
Proof.
  unfold bid_groups. rewrite nodup_In, in_map_iff.
  split; intros (b & H1 & H2); exists b; auto.
Qed.

(** Nothing in the statement fixes the order of the result: on the same
    tables, an engine that yields the rows in the order of the table gives
    article 1 first, and one that yields them in the reverse order gives
    article 2 first. *)
Lemma mostBids_order_not_fixed :
  (exists l : list Article,
     fst (mostBids table_order {| limit := 8; offset := 0 |} Sample.auction)
     = Return l
     /\ map id l = [Some 1; Some 2])
  /\ (exists l : list Article,
        fst (mostBids reverse_order {| limit := 8; offset := 0 |}
                      Sample.auction) = Return l
        /\ map id l = [Some 2; Some 1]).
Proof. split; eexists; split; reflexivity. Qed.

Lemma mostBids_equation (order : RowOrder) (params : Params) (w : World) :
  mostBids order params w
  = (match select_most_bids order (or_else (limit params) 8)
                            (or_else (offset params) 0) (committed w) with
     | Some rows => Return (map (entity (committed w)) rows)
     | None => Throw DatabaseError
     end, w).
Proof.
  unfold mostBids, bind, query_checked. cbv beta zeta.
  change (view Database_get w) with (committed w).
  destruct (select_most_bids _ _ _ _); [|reflexivity].
  now rewrite push_each_getFromResult.
Qed.

(** At the inputs that break C3. Of two articles of which one has a bid,
    [mostBids] returns that one alone, whatever the order of the engine,
    where the articles ordered by their count of bids and cut to a page of
    8 are both; with a [limit] of 0 it returns articles, where a page of 0
    is empty; with a negative [limit] or [offset] it throws; and where the
    engine yields the rows in the order of the table, an article with one
    bid comes before an article with two. *)
Lemma mostBids_not_as_stated :
  (forall order : RowOrder,
     exists l : list Article,
       fst (mostBids order {| limit := 8; offset := 0 |} Sample.quiet)
       = Return l
       /\ map id l = [Some 2]
       /\ ~ ranked_articles_page (committed Sample.quiet)
                                 {| limit := 8; offset := 0 |} l)
  /\ (forall order : RowOrder,
        exists l : list Article,
          fst (mostBids order {| limit := 0; offset := 0 |} Sample.auction)
          = Return l
          /\ List.length l = 2%nat)
  /\ (forall order : RowOrder,
        fst (mostBids order {| limit := -1; offset := 0 |} Sample.auction)
        = Throw DatabaseError
        /\ fst (mostBids order {| limit := 8; offset := -1 |} Sample.auction)
           = Throw DatabaseError)
  /\ (exists l : list Article,
        fst (mostBids table_order {| limit := 8; offset := 0 |}
                      Sample.auction) = Return l
        /\ map id l = [Some 1; Some 2]
        /\ map (bids_of Sample.auction_tables) l = [1; 2]
        /\ ~ by_descending_bids (committed Sample.auction) l).
Proof.
  split; [|split; [|split]];
    [intros order; rewrite mostBids_equation ..
    | eexists; split; [reflexivity|]; split; [reflexivity|];
      split; [reflexivity|];
      intros H; inversion H as [|a l' _ Hall]; subst;
      inversion Hall as [|b l'' Hab _]; subst;
      vm_compute in Hab; now apply Hab ].
  - assert (R : bid_ranking order Sample.quiet_tables = [2])
      by apply Permutation_length_1_inv, Permutation_sym, bid_ranking_groups.
    assert (E : select_most_bids order 8 0 Sample.quiet_tables
                = Some [Sample.poster 2]).
    { unfold select_most_bids. rewrite R.
      change (limit_offset 8 0 [2]) with (Some [2]). cbn [option_map].
      f_equal. apply Permutation_length_1_inv, Permutation_sym.
      apply (arrange_permutation order _ _ [Sample.poster 2]). }
    change (or_else (limit {| limit := 8; offset := 0 |}) 8) with 8.
    change (or_else (offset {| limit := 8; offset := 0 |}) 0) with 0.
    change (committed Sample.quiet) with Sample.quiet_tables.
    rewrite E. cbn [fst]. eexists. split; [reflexivity|].
    split; [reflexivity|].
    intros (ranking & Hperm & _ & Hl).
    apply Permutation_length in Hperm. apply (f_equal (@List.length _)) in Hl.
    rewrite !length_map in Hl. cbn [limit offset] in Hl.
    change (Z.to_nat 0) with 0%nat in Hl. cbn [skipn] in Hl.
    rewrite firstn_all2 in Hl
      by (rewrite Hperm; change (Z.to_nat 8) with 8%nat; cbn; lia).
    rewrite Hperm in Hl. discriminate Hl.
  - pose proof (bid_ranking_groups order Sample.auction_tables) as R.
    unfold select_most_bids.
    change (limit_offset (or_else (limit {| limit := 0; offset := 0 |}) 8)
              (or_else (offset {| limit := 0; offset := 0 |}) 0)
              (bid_ranking order (committed Sample.auction)))
      with (Some (firstn 8 (bid_ranking order Sample.auction_tables))).
    rewrite firstn_all2
      by (rewrite (Permutation_length R); vm_compute; lia).
    cbn [option_map fst]. eexists. split; [reflexivity|].
    rewrite length_map, (Permutation_length (arrange_permutation order _ _ _)).
    change (article (committed Sample.auction))
      with [Sample.poster 1; Sample.poster 2].
    cbn [filter Sample.poster art_id].
    rewrite !(proj2 (existsb_exists _ _)); [reflexivity | |].
    + exists 2. split; [|reflexivity].
      apply (Permutation_in _ (Permutation_sym R)). vm_compute. tauto.
    + exists 1. split; [|reflexivity].
      apply (Permutation_in _ (Permutation_sym R)). vm_compute. tauto.
  - split; [reflexivity|]. now rewrite mostBids_equation.
Qed.

(** C3, amended: for a [limit] and an [offset] that are not negative,
    [mostBids] takes the ids that have bids, ranked by descending count of
    bids, skips [offset] of them and keeps [limit] (8 when [limit] is 0),
    and returns the articles that have one of these ids, each row once, in
    an order that is the engine's. *)
Theorem mostBids_page (order : RowOrder) (params : Params) (w : World) :
  0 <= limit params -> 0 <= offset params ->
  exists (ranking : list Z) (rows : list ArticleRow),
    NoDup ranking
    /\ (forall i, In i ranking <->
                  exists b, In b (bid (committed w)) /\ bid_art_id b = i)
    /\ StronglySorted
         (fun a b => bid_count (committed w) b <= bid_count (committed w) a)
         ranking
    /\ Permutation rows
         (filter
            (fun row =>
               existsb (Z.eqb (art_id row))
                 (firstn (Z.to_nat (or_else (limit params) 8))
                         (skipn (Z.to_nat (offset params)) ranking)))
            (article (committed w)))
    /\ mostBids order params w = (Return (map (entity (committed w)) rows), w).
Proof.
  intros Hl Ho. rewrite mostBids_equation.
  unfold select_most_bids, limit_offset. rewrite or_else_zero.
  pose proof (or_else_nonneg (limit params) 8 Hl ltac:(lia)) as Hl'.
  replace (or_else (limit params) 8 <? 0) with false
    by (symmetry; apply Z.ltb_ge; exact Hl').
  replace (offset params <? 0) with false
    by (symmetry; apply Z.ltb_ge; exact Ho).
  cbn [orb option_map].
  exists (bid_ranking order (committed w)). eexists.
  split; [|split; [|split; [|split; [|reflexivity]]]].
  - eapply Permutation_NoDup;
      [symmetry; apply bid_ranking_groups | apply NoDup_nodup].
  - intros i. rewrite <- bid_groups_in.
    split; apply Permutation_in;
      [apply bid_ranking_groups | symmetry; apply bid_ranking_groups].
  - apply order_desc_sorted.
  - apply arrange_permutation.
Qed.

Lemma mostBids_page_witness :
  exists l : list Article,
    mostBids table_order {| limit := 1; offset := 0 |} Sample.auction
    = (Return l, Sample.auction).
Proof.
  destruct (mostBids_page table_order {| limit := 1; offset := 0 |}
                          Sample.auction)
    as (ranking & rows & _ & _ & _ & _ & E); [cbn; lia | cbn; lia |].
  eexists. exact E.
Defined.

(** *** Writing *)

(** The transaction of the driver does what its name says for the
    statements sent through the scoped handle: all of them reach the
    committed tables, or none does. *)
Lemma for_each_scoped (writes log : list Write) (w : World) :
  pending w = Some log ->
  (forallb accepted writes = true ->
   for_each writes (execute Scoped) w
   = (Return tt, set_pending w (Some (log ++ writes))))
  /\ (forallb accepted writes = false ->
      exists w', for_each writes (execute Scoped) w = (Throw DatabaseError, w')
                 /\ committed w' = committed w).
Proof.
  revert log w. induction writes as [|wr writes IH]; intros log w Hp.
  - split; [|discriminate]. intros _. cbn. unfold ret.
    rewrite app_nil_r, <- Hp. now destruct w.
  - assert (E : for_each (wr :: writes) (execute Scoped) w
                = if accepted wr
                  then for_each writes (execute Scoped)
                         (set_pending w (Some (log ++ [wr])))
                  else (Throw DatabaseError, w)).
    { cbn [for_each]. unfold bind, execute. rewrite Hp.
      now destruct (accepted wr). }
    rewrite E. clear E. cbn [forallb].
    destruct (accepted wr); cbn [andb].
    + destruct (IH (log ++ [wr]) (set_pending w (Some (log ++ [wr])))
                   eq_refl) as [Hok Hko].
      split.
      * intros Hall. rewrite (Hok Hall). cbn. now rewrite <- app_assoc.
      * intros Hall. destruct (Hko Hall) as (w' & E & Hc).
        exists w'. now rewrite E.
    + split; [discriminate|]. intros _. now exists w.
Qed.

Lemma begin_scoped_all_or_nothing (writes : list Write) (w : World) :
  (forallb accepted writes = true ->
   begin (fun sql => for_each writes (execute sql)) w
   = (Return tt,
      set_pending
        (set_committed w (fold_left apply_write writes (committed w)))
        None))
  /\ (forallb accepted writes = false ->
      exists w', begin (fun sql => for_each writes (execute sql)) w
                 = (Throw DatabaseError, w')
                 /\ committed w' = committed w).
Proof.
  unfold begin.
  destruct (for_each_scoped writes [] (set_pending w (Some [])) eq_refl)
    as [Hok Hko].
  split; intros Hall.
  - now rewrite (Hok Hall).
  - destruct (Hko Hall) as (w' & E & Hc). rewrite E.
    exists (set_pending w' None). split; [reflexivity | exact Hc].
Qed.

(** The statements of [create] go through the handle of the pool: each one
    that the engine accepts is in the committed tables at once. *)
Lemma execute_pool_accepted (wr : Write) (w : World) :
  accepted wr = true ->
  execute Pool wr w
  = (Return tt, set_committed w (apply_write (committed w) wr)).
Proof. unfold execute. now intros ->. Qed.

Lemma execute_pool_rejected (wr : Write) (w : World) :
  accepted wr = false -> execute Pool wr w = (Throw DatabaseError, w).
Proof. unfold execute. now intros ->. Qed.

(** The loop over the image paths stops at the first path that the engine
    rejects, with the rows of the paths before it committed. *)
Lemma image_loop_stops (row : ArticleRow) (good : list string)
    (bad : string) (rest : list string) (w : World) :
  forallb valid_text good = true -> valid_text bad = false ->
  for_each (good ++ bad :: rest)
    (fun img_path =>
       r <- row_at [row] 0 ;;
       execute Database_get
         (InsertImage {| image_art_id := art_id r; img_path := img_path |})) w
  = (Throw DatabaseError,
     set_committed w
       (fold_left apply_write
          (map (fun p => InsertImage {| image_art_id := art_id row;
                                        img_path := p |}) good)
          (committed w))).
Proof.
  set (body := fun img_path : string => _).
  assert (Hbody : forall p w', body p w'
            = execute Pool (InsertImage {| image_art_id := art_id row;
                                           img_path := p |}) w')
    by reflexivity.
  assert (Hstep : forall p l w',
            for_each (p :: l) body w'
            = match body p w' with
              | (Return _, w'') => for_each l body w''
              | (Throw e, w'') => (Throw e, w'')
              end) by reflexivity.
  revert w. induction good as [|p good IH]; intros w Hgood Hbad.
  - cbn [app map fold_left]. rewrite Hstep, Hbody.
    rewrite execute_pool_rejected by exact Hbad. now destruct w.
  - cbn [forallb] in Hgood. apply andb_prop in Hgood as [Hp Hgood].
    cbn [app map fold_left]. rewrite Hstep, Hbody.
    rewrite execute_pool_accepted by exact Hp.
    now rewrite IH.
Qed.

(** Whenever an image path is rejected, [create] throws with the movie
    row, the article row and the rows of the paths before it committed. *)
Lemma create_rejected_image
    (TMDB_getMovie : option Z -> Outcome Movie) (movie : Movie)
    (name description : string) (price min_bidding : Z)
    (auction_start auction_end : Date) (good : list string) (bad : string)
    (rest : list string) (tmdb_movie_id selling_company_id : Z)
    (w : World) :
  TMDB_getMovie (Some tmdb_movie_id) = Return movie ->
  valid_text (title movie) = true ->
  valid_text name = true -> valid_text description = true ->
  forallb valid_text good = true -> valid_text bad = false ->
  let row :=
    {| art_id := art_id_seq w; art_name := name;
       art_description := description; art_price := price;
       art_min_bidding := min_bidding;
       art_auction_start := auction_start;
       art_auction_end := auction_end;
       m_id := tmdb_movie_id; c_id := selling_company_id |} in
  exists w',
    create TMDB_getMovie name description price min_bidding
           auction_start auction_end (good ++ bad :: rest)
           tmdb_movie_id selling_company_id w
    = (Throw DatabaseError, w')
    /\ committed w'
       = fold_left apply_write
           (InsertMovie {| movie_m_id := tmdb_movie_id;
                           m_title := title movie |}
            :: InsertArticle row
            :: map (fun p => InsertImage {| image_art_id := art_id row;
                                            img_path := p |}) good)
           (committed w).
Proof.
  intros Hmovie Htitle Hname Hdesc Hgood Hbad row.
  unfold create. unfold bind at 1. unfold getMovie. rewrite Hmovie.
  unfold bind at 1. unfold begin. unfold bind at 1.
  unfold Database_get.
  rewrite execute_pool_accepted by exact Htitle.
  unfold bind at 1. unfold insert_article.
  cbn [art_id_seq set_committed set_pending add_request set_seq committed
       pending requests].
  fold row.
  rewrite execute_pool_accepted
    by (cbn [accepted row art_name art_description];
        now rewrite Hname, Hdesc).
  unfold bind at 1. fold Database_get.
  rewrite (image_loop_stops row good bad rest _ Hgood Hbad).
  eexists. split; [reflexivity|].
  reflexivity.
Qed.

(** C1, at the input that breaks it: the second image path is one that the
    engine rejects. [create] throws, and the movie row, the article row and
    the row of the first image are in the committed tables all the same:
    the callback of [begin] sends its statements through [database], not
    through the scoped handle [sql] it receives, so that none of them
    belongs to the transaction that is rolled back. *)
Theorem create_leaves_partial_writes :
  let outcome :=
    create Sample.alien_only "Poster" "Original" 100 5
           Sample.epoch Sample.epoch
           ["/img/article/1-a.jpg"%string; Sample.bad_path] 7 3
           Sample.fresh in
  fst outcome = Throw DatabaseError
  /\ committed (snd outcome)
     = {| article := [Sample.poster 1];
          article_image :=
            [ {| image_art_id := 1; img_path := "/img/article/1-a.jpg" |} ];
          movie := [ {| movie_m_id := 7; m_title := "Alien" |} ];
          bid := [] |}
  /\ committed (snd outcome) <> committed Sample.fresh.
Proof.
  cbv zeta. split; [reflexivity|]. split; [reflexivity|].
  vm_compute. discriminate.
Qed.

End ArticleFacts.

(** * Further properties of dateDiff *)

Module DateDiffOrder.
Import DateDiff DiffOps DoubleFacts.

Lemma rem_nonpos_bound (a b : Z) :
  a <= 0 -> 0 < b -> - b < Z.rem a b <= 0.
Proof.
  intros Ha Hb. replace a with (- - a) by lia.
  rewrite Z.rem_opp_l by lia.
  pose proof (Z.rem_bound_pos (- a) b ltac:(lia) Hb). lia.
Qed.

(** One step of [dateDiff] on a number that is not positive: the remainder
    and the rounded quotient are not positive either, and the quotient is
    negative when the number is and leaves no remainder. *)
Lemma step_nonpos (a b : Z) :
  a <= 0 -> 0 < b ->
  - b < Z.rem a b <= 0
  /\ floor_div (minus a (Z.rem a b)) b <= 0
  /\ (a < 0 -> Z.rem a b = 0 -> floor_div (minus a (Z.rem a b)) b < 0).
Proof.
  intros Ha Hb. pose proof (rem_nonpos_bound a b Ha Hb) as Hr.
  destruct (DateDiffFacts.quot_part a b Hb) as (E & _ & _).
  assert (Hq : Z.quot a b <= 0) by (apply Z.quot_le_upper_bound; lia).
  assert (Hle : a <= Z.rem a b) by nia.
  split; [exact Hr|]. split.
  - apply floor_div_nonpos; [apply minus_nonpos; exact Hle | exact Hb].
  - intros Hneg H0. apply floor_div_negative; [|exact Hb].
    apply minus_negative. lia.
Qed.

(** X1: When the second date is the later one, no component is positive: the
    seconds and the minutes lie in -59..0, the hours in -23..0, the days are
    at most 0, and the whole is a negative number of seconds. *)
Theorem dateDiff_second_date_later (A B : Date) :
  getTime A < getTime B ->
  let d := dateDiff A B in
  -59 <= sec d <= 0 /\ -59 <= min d <= 0 /\ -23 <= hour d <= 0
  /\ day d <= 0 /\ recompose d < 0.
Proof.
  intros Hlt. cbv zeta. unfold recompose, dateDiff. cbv zeta.
  cbn [sec min hour day]. unfold remainder.
  set (s := floor_div (minus (getTime A) (getTime B)) 1000).
  assert (Hs : s < 0)
    by (apply floor_div_negative; [now apply minus_negative | lia]).
  destruct (step_nonpos s 60 ltac:(lia) ltac:(lia)) as (R1 & M1 & N1).
  set (m := floor_div (minus s (Z.rem s 60)) 60) in *.
  destruct (step_nonpos m 60 M1 ltac:(lia)) as (R2 & M2 & N2).
  set (h := floor_div (minus m (Z.rem m 60)) 60) in *.
  destruct (step_nonpos h 24 M2 ltac:(lia)) as (R3 & M3 & N3).
  set (dd := floor_div (minus h (Z.rem h 24)) 24) in *.
  specialize (N1 Hs).
  assert (Hsome : Z.rem s 60 < 0 \/ Z.rem m 60 < 0 \/ Z.rem h 24 < 0 \/ dd < 0).
  { destruct (Z.eq_dec (Z.rem s 60) 0) as [E1|E1]; [|lia].
    specialize (N1 E1). specialize (N2 N1).
    destruct (Z.eq_dec (Z.rem m 60) 0) as [E2|E2]; [|lia].
    specialize (N2 E2). specialize (N3 N2).
    destruct (Z.eq_dec (Z.rem h 24) 0) as [E3|E3]; [|lia].
    specialize (N3 E3). lia. }
  lia.
Qed.

Lemma dateDiff_second_date_later_witness :
  let d := dateDiff {| getTime := 0 |} {| getTime := 93784999 |} in
  d = {| sec := -5; min := -3; hour := -2; day := -1 |} /\ recompose d < 0.
Proof.
  intros d. split; [vm_compute; reflexivity|].
  exact (proj2 (proj2 (proj2 (proj2
    (dateDiff_second_date_later {| getTime := 0 |} {| getTime := 93784999 |}
       ltac:(cbn; lia)))))).
Defined.

(** X2: For two dates less than 2^53 ms apart, swapping them negates every
    component when they are a whole number of seconds apart; when they are
    not, the first division rounds both differences down and the swapped
    result carries one second more, in magnitude, than the negation. *)
Theorem dateDiff_swap (A B : Date) :
  - 2 ^ 53 < getTime A - getTime B < 2 ^ 53 ->
  ((getTime A - getTime B) mod 1000 = 0 ->
   dateDiff B A = negated (dateDiff A B))
  /\ ((getTime A - getTime B) mod 1000 <> 0 ->
      recompose (dateDiff B A) = - recompose (dateDiff A B) - 1).
Proof.
  intros Hd.
  assert (Hd' : - 2 ^ 53 < getTime B - getTime A < 2 ^ 53) by lia.
  split; intros Hm.
  - rewrite (DateDiffFacts.dateDiff_small A B Hd).
    rewrite (DateDiffFacts.dateDiff_small B A Hd'). cbv zeta.
    unfold negated. cbn [sec min hour day].
    replace (getTime B - getTime A) with (- (getTime A - getTime B)) by lia.
    rewrite Z_div_zero_opp_full by first [exact Hm | lia].
    set (s := (getTime A - getTime B) / 1000).
    now rewrite !Z.quot_opp_l, !Z.rem_opp_l by lia.
  - rewrite !DateDiffFacts.recompose_dateDiff by assumption.
    unfold seconds_between.
    replace (getTime B - getTime A) with (- (getTime A - getTime B)) by lia.
    now rewrite Z_div_nz_opp_full by first [exact Hm | lia].
Qed.

Lemma dateDiff_swap_witness :
  dateDiff {| getTime := 0 |} {| getTime := 61000 |}
  = negated (dateDiff {| getTime := 61000 |} {| getTime := 0 |})
  /\ recompose (dateDiff {| getTime := 0 |} {| getTime := 1500 |})
     = - recompose (dateDiff {| getTime := 1500 |} {| getTime := 0 |}) - 1.
Proof.
  split.
  - apply (proj1 (dateDiff_swap {| getTime := 61000 |} {| getTime := 0 |}
                    ltac:(cbn; lia))).
    reflexivity.
  - apply (proj2 (dateDiff_swap {| getTime := 1500 |} {| getTime := 0 |}
                    ltac:(cbn; lia))).
    cbn. discriminate.
Defined.

(** X3: Less than a second forward is no difference at all; up to a second
    backward is already one second, negative. *)
Theorem dateDiff_below_one_second (A B : Date) :
  (0 <= getTime A - getTime B < 1000 ->
   dateDiff A B = {| sec := 0; min := 0; hour := 0; day := 0 |})
  /\ (-1000 <= getTime A - getTime B < 0 ->
      dateDiff A B = {| sec := -1; min := 0; hour := 0; day := 0 |}).
Proof.
  split; intros H;
    rewrite DateDiffFacts.dateDiff_small
      by (split; [apply Z.lt_le_trans with (m := -1000); [reflexivity | lia]
                 | apply Z.lt_le_trans with (m := 1000); [lia | discriminate]]);
    cbv zeta.
  - now rewrite Z.div_small by exact H.
  - replace ((getTime A - getTime B) / 1000) with (-1); [reflexivity|].
    apply Z.div_unique with (r := getTime A - getTime B + 1000); lia.
Qed.

Lemma dateDiff_below_one_second_witness :
  dateDiff {| getTime := 999 |} {| getTime := 0 |}
  = {| sec := 0; min := 0; hour := 0; day := 0 |}
  /\ dateDiff {| getTime := 0 |} {| getTime := 1 |}
     = {| sec := -1; min := 0; hour := 0; day := 0 |}.
Proof.
  split.
  - apply (proj1 (dateDiff_below_one_second
                    {| getTime := 999 |} {| getTime := 0 |})). cbn. lia.
  - apply (proj2 (dateDiff_below_one_second
                    {| getTime := 0 |} {| getTime := 1 |})). cbn. lia.
Defined.

End DateDiffOrder.

(** * Further properties of the cookie writer and the session resolver *)

Module SessionMore.
Import Cookie Session.

Lemma append_assoc (a b c : string) : (a ++ b) ++ c = a ++ b ++ c.
Proof. induction a as [|x a IH]; cbn; [reflexivity | now rewrite IH]. Qed.

Lemma append_empty (a b : string) : a ++ b = "" -> a = "" /\ b = "".
Proof. destruct a; cbn; [auto | discriminate]. Qed.

Lemma endsWith_has_char (s : string) (c : ascii) :
  endsWith s c = true -> has_char c s = true.
Proof.
  induction s as [|a s IH]; cbn; [discriminate|].
  destruct s as [|b s'].
  - intros ->. reflexivity.
  - intros H. rewrite (IH H). apply orb_true_r.
Qed.

(** The string handed to [match] always holds the cookie string, with at
    most one character after it. *)
Lemma normalize_cases (cookies : string) :
  normalize cookies = cookies \/ normalize cookies = cookies ++ ";".
Proof. unfold normalize. destruct (endsWith cookies ";"); auto. Qed.

(** A leading token entry is found, whatever follows its semicolon. *)
Lemma match_token_leading (v post : string) :
  has_char ";" v = false ->
  match_token ("token=" ++ v ++ ";" ++ post) = Some ("token=" ++ v ++ ";", v).
Proof.
  intros Hv. apply SessionFacts.match_token_here.
  now apply SessionFacts.match_here_found.
Qed.

Lemma get_single_cookie (cookies : string) :
  get [("cookie", cookies)] "cookie" = Some cookies.
Proof. reflexivity. Qed.

(** X4: The token is the first entry of the cookie header: the lookup is made
    with its value, whether the header stops there without a semicolon or
    goes on with other entries, a second [token=] among them. *)
Theorem resolve_leading_token {A} (lookup : string -> Outcome A)
    (headers : Headers) (v post : string) :
  has_char ";" v = false ->
  get headers "cookie" = Some ("token=" ++ v)
  \/ get headers "cookie" = Some ("token=" ++ v ++ ";" ++ post) ->
  resolve lookup headers = lookup v.
Proof.
  intros Hv [Hget|Hget].
  - apply (SessionFacts.resolve_match lookup headers _ ("token=" ++ v ++ ";", v) Hget);
      [discriminate|].
    unfold normalize.
    destruct (endsWith ("token=" ++ v) ";") eqn:E.
    + apply endsWith_has_char in E. cbn in E. congruence.
    + rewrite append_assoc.
      replace (v ++ ";") with (v ++ ";" ++ "") by reflexivity.
      now apply match_token_leading.
  - apply (SessionFacts.resolve_match lookup headers _ ("token=" ++ v ++ ";", v) Hget);
      [discriminate|].
    destruct (normalize_cases ("token=" ++ v ++ ";" ++ post)) as [-> | ->].
    + now apply match_token_leading.
    + rewrite !append_assoc. now apply match_token_leading.
Qed.

Lemma resolve_leading_token_witness :
  resolve (@Return string) [("cookie", "token=abc")] = Return "abc"
  /\ resolve (@Return string) [("cookie", "token=abc; token=xyz")]
     = Return "abc".
Proof.
  split.
  - apply (resolve_leading_token (@Return string)
             [("cookie", "token=abc")] "abc" "");
      [reflexivity | left; reflexivity].
  - apply (resolve_leading_token (@Return string)
             [("cookie", "token=abc; token=xyz")] "abc" " token=xyz");
      [reflexivity | right; reflexivity].
Defined.

(** X5: What [addCookie] writes for a cookie named [token] is read back by the
    resolver: sent as a cookie header, the written value yields the value of
    the cookie, provided it holds no semicolon; the attributes written after
    it are passed over. *)
Theorem written_token_is_read_back {A} (lookup : string -> Outcome A)
    (cookie : Cookie) :
  name cookie = "token" -> has_char ";" (value cookie) = false ->
  resolve lookup [("cookie", cookie_value cookie)] = lookup (value cookie).
Proof.
  intros Hn Hv.
  apply (resolve_leading_token lookup _ (value cookie)
           ((maxAge_fragment cookie ++ secure_fragment cookie)
              ++ path_fragment cookie) Hv).
  right. rewrite get_single_cookie. f_equal.
  rewrite CookieFacts.cookie_value_fragments, Hn.
  now rewrite !append_assoc.
Qed.

Lemma written_token_is_read_back_witness :
  resolve (@Return string)
    [("cookie", cookie_value {| name := "token"; value := "abc123";
                                maxAge := Some 3600; secure := Some true;
                                path := Some "/" |})]
  = Return "abc123".
Proof.
  apply (written_token_is_read_back (@Return string)
           {| name := "token"; value := "abc123"; maxAge := Some 3600;
              secure := Some true; path := Some "/" |}); reflexivity.
Defined.

(** X6: Writing a cookie into a header collection changes nothing for the
    resolver, which reads the [cookie] entries only. *)
Theorem addCookie_keeps_session {A} (lookup : string -> Outcome A)
    (headers : Headers) (cookie : Cookie) :
  get (addCookie headers cookie) "cookie" = get headers "cookie"
  /\ resolve lookup (addCookie headers cookie) = resolve lookup headers.
Proof.
  assert (E : get (addCookie headers cookie) "cookie" = get headers "cookie").
  { unfold get, addCookie, append. rewrite filter_app. cbn [filter fst].
    replace (String.eqb (lower "Set-Cookie") (lower "cookie")) with false
      by reflexivity.
    now rewrite app_nil_r. }
  split; [exact E|]. unfold resolve. now rewrite E.
Qed.

Lemma semicolon_split (c a b : string) :
  c ++ ";" = a ++ b -> b <> "" -> exists b', b = b' ++ ";" /\ c = a ++ b'.
Proof.
  revert c. induction a as [|x a IH]; intros c H Hb.
  - exists c. now split.
  - destruct c as [|y c]; cbn in H.
    + inversion H as [[Hx Hab]]. symmetry in Hab.
      apply append_empty in Hab as [_ Hab]. contradiction.
    + inversion H as [[Hx Hab]]. destruct (IH c Hab Hb) as (b' & -> & ->).
      now exists b'.
Qed.

(** A match in the normalized string shows a [token=] in the cookie string
    itself. *)
Lemma match_shows_token (cookies : string) (m : MatchArray) :
  match_token (normalize cookies) = Some m ->
  exists pre rest, cookies = pre ++ "token=" ++ rest.
Proof.
  intros H. apply SessionFacts.match_token_sound in H.
  destruct H as (pre & v & post & [Hs _] & _).
  destruct (normalize_cases cookies) as [E|E]; rewrite E in Hs.
  - now exists pre, (v ++ ";" ++ post).
  - rewrite <- (append_assoc pre "token=") in Hs.
    destruct (semicolon_split _ _ _ Hs) as (b' & _ & ->);
      [destruct v; discriminate|].
    exists pre, b'. now rewrite append_assoc.
Qed.

(** X7: Every cookie header that is not empty and holds no [token=] at all ends
    in the [TypeError] of the [null] match, in each of the resolvers of both
    revisions; none of them reaches its lookup. *)
Theorem resolvers_without_token (acc : Accounts) (headers : Headers)
    (cookies : string) :
  get headers "cookie" = Some cookies -> cookies <> "" ->
  (forall pre rest, cookies <> pre ++ "token=" ++ rest) ->
  getAccountBySession acc headers = Throw TypeError
  /\ getBuyerFromAccountSession acc headers = Throw TypeError
  /\ getCompanyBySession acc headers = Throw TypeError
  /\ getBuyerBySession acc headers = Throw TypeError.
Proof.
  intros Hget Hne Hno.
  assert (Hm : match_token (normalize cookies) = None).
  { destruct (match_token (normalize cookies)) as [m|] eqn:E; [|reflexivity].
    destruct (match_shows_token _ _ E) as (pre & rest & Hc).
    exfalso. exact (Hno pre rest Hc). }
  assert (Hacc : getAccountBySession acc headers = Throw TypeError)
    by (apply (SessionFacts.resolve_no_match _ headers cookies); assumption).
  unfold getBuyerFromAccountSession, getCompanyBySession. rewrite Hacc.
  repeat split.
  apply (SessionFacts.resolve_no_match _ headers cookies); assumption.
Qed.

(** X8: The outcome of a resolution is one of three: the
    [SessionTokenInvalideError] of a missing or empty cookie header, the
    [TypeError] of a header without match, or the outcome of the lookup for
    a token that holds no semicolon. *)
Theorem resolve_outcomes {A} (lookup : string -> Outcome A)
    (headers : Headers) :
  (resolve lookup headers = Throw SessionTokenInvalideError
   /\ (get headers "cookie" = None \/ get headers "cookie" = Some ""))
  \/ resolve lookup headers = Throw TypeError
  \/ exists v, has_char ";" v = false /\ resolve lookup headers = lookup v.
Proof.
  unfold resolve. destruct (get headers "cookie") as [cookies|]; [|auto].
  destruct cookies as [|c cookies]; [auto|].
  cbn [truthy truthy_optional truthy_string].
  destruct (match_token (normalize (String c cookies))) as [m|] eqn:E;
    [|auto].
  right. right. apply SessionFacts.match_token_sound in E.
  destruct E as (pre & v & post & [_ Hv] & ->). now exists v.
Qed.

Lemma resolvers_without_token_witness :
  getAccountBySession SampleAccounts.one_buyer [("cookie", "other=x")]
  = Throw TypeError
  /\ getCompanyBySession SampleAccounts.one_buyer [("cookie", "other=x")]
     = Throw TypeError.
Proof.
  destruct (resolvers_without_token SampleAccounts.one_buyer
              [("cookie", "other=x")] "other=x") as (Ha & _ & Hc & _).
  - reflexivity.
  - discriminate.
  - intros pre rest H.
    repeat (destruct pre as [|? pre];
            [discriminate H
            | cbn in H; first [discriminate H | injection H as _ H]]).
  - split; [exact Ha | exact Hc].
Defined.

End SessionMore.

(** * Further properties of the Article class *)

Module ArticleMore.
Import DateDiff Store Article ArticleRest.
Local Open Scope list_scope.
Local Open Scope store_scope.

Lemma set_committed_same (w : World) : set_committed w (committed w) = w.
Proof. now destruct w. Qed.

(** The loop over the image paths, whatever the paths are: it commits the
    rows of the paths that come before the first rejected one, and throws
    if there is one. *)
Lemma image_loop (row : ArticleRow) (l : list string) (w : World) :
  let mk := fun p => InsertImage {| image_art_id := art_id row;
                                    img_path := p |} in
  for_each l
    (fun img_path =>
       r <- row_at [row] 0 ;;
       execute Database_get
         (InsertImage {| image_art_id := art_id r; img_path := img_path |})) w
  = (if forallb accepted (map mk l) then Return tt else Throw DatabaseError,
     set_committed w
       (fold_left apply_write (accepted_prefix (map mk l)) (committed w))).
Proof.
  intros mk.
  set (body := fun img_path : string => _).
  assert (Hbody : forall p w', body p w' = execute Pool (mk p) w')
    by reflexivity.
  assert (Hstep : forall p l' w',
            for_each (p :: l') body w'
            = match body p w' with
              | (Return _, w'') => for_each l' body w''
              | (Throw e, w'') => (Throw e, w'')
              end) by reflexivity.
  revert w. induction l as [|p l IH]; intros w.
  - cbn. unfold ret. now rewrite set_committed_same.
  - rewrite Hstep, Hbody. cbn [map forallb accepted_prefix].
    destruct (accepted (mk p)) eqn:E.
    + rewrite ArticleFacts.execute_pool_accepted by exact E.
      rewrite IH. cbn [andb fold_left]. reflexivity.
    + rewrite ArticleFacts.execute_pool_rejected by exact E.
      cbn [andb fold_left]. now rewrite set_committed_same.
Qed.

Lemma accepted_prefix_all (ws : list Write) :
  forallb accepted ws = true -> accepted_prefix ws = ws.
Proof.
  induction ws as [|wr ws IH]; cbn; [reflexivity|].
  destruct (accepted wr); cbn; [|discriminate].
  intros H. now rewrite IH.
Qed.

Lemma image_writes_accepted (i : Z) (paths : list string) :
  forallb accepted
    (map (fun p => InsertImage {| image_art_id := i; img_path := p |}) paths)
  = forallb valid_text paths.
Proof.
  induction paths as [|p paths IH]; cbn; [reflexivity | now rewrite IH].
Qed.

(** The tables only grow under the statements of [create]. *)
Lemma writes_extend (ws : list Write) (t : Tables) :
  exists a i m,
    article (fold_left apply_write ws t) = article t ++ a
    /\ article_image (fold_left apply_write ws t) = article_image t ++ i
    /\ movie (fold_left apply_write ws t) = movie t ++ m
    /\ bid (fold_left apply_write ws t) = bid t.
Proof.
  revert t. induction ws as [|wr ws IH]; intros t; cbn [fold_left].
  - exists [], [], []. now rewrite !app_nil_r.
  - destruct (IH (apply_write t wr)) as (a & i & m & Ha & Hi & Hm & Hb).
    rewrite Ha, Hi, Hm, Hb. destruct wr as [mv|r|im]; cbn.
    + destruct (existsb _ (movie t)); [now exists a, i, m|].
      exists a, i, (mv :: m). cbn. now rewrite <- app_assoc.
    + exists (r :: a), i, m. now rewrite <- app_assoc.
    + exists a, (im :: i), m. now rewrite <- app_assoc.
Qed.

Lemma image_writes_tables (i : Z) (paths : list string) (t : Tables) :
  fold_left apply_write
    (map (fun p => InsertImage {| image_art_id := i; img_path := p |}) paths) t
  = {| article := article t;
       article_image :=
         article_image t
         ++ map (fun p => {| image_art_id := i; img_path := p |}) paths;
       movie := movie t; bid := bid t |}.
Proof.
  revert t. induction paths as [|p paths IH]; intros t; cbn [map fold_left].
  - rewrite app_nil_r. now destruct t.
  - rewrite IH. cbn. now rewrite <- app_assoc.
Qed.

(** The tables after all the statements of a call. *)
Lemma create_writes_tables (title : string) (row : ArticleRow)
    (paths : list string) (t : Tables) :
  fold_left apply_write (create_writes title row paths) t
  = {| article := article t ++ [row];
       article_image :=
         article_image t
         ++ map (fun p => {| image_art_id := art_id row; img_path := p |})
                paths;
       movie :=
         movie (apply_write t (InsertMovie {| movie_m_id := m_id row;
                                              m_title := title |}));
       bid := bid t |}.
Proof.
  unfold create_writes. cbn [fold_left]. rewrite image_writes_tables.
  cbn [article article_image movie bid apply_write].
  now destruct (existsb _ (movie t)).
Qed.

Lemma create_writes_accepted (title : string) (row : ArticleRow)
    (paths : list string) :
  valid_text title = true -> valid_text (art_name row) = true ->
  valid_text (art_description row) = true ->
  forallb valid_text paths = true ->
  forallb accepted (create_writes title row paths) = true.
Proof.
  intros Ht Hn Hd Hp. unfold create_writes.
  cbn [forallb accepted m_title art_name art_description].
  now rewrite Ht, Hn, Hd, image_writes_accepted, Hp.
Qed.

(** [get] returns the first row of the id, with its images. *)
Lemma get_first_row (i : Z) (w : World) (r : ArticleRow)
    (rest : list ArticleRow) :
  select_article i (committed w) = r :: rest ->
  get i w = (Return (entity (committed w) r), w).
Proof.
  intros E. unfold get, bind, query. cbv beta.
  change (view Database_get w) with (committed w). rewrite E.
  cbn [List.length row_at nth_error ret].
  replace (Z.of_nat (S (List.length rest)) =? 0) with false
    by (symmetry; apply Z.eqb_neq; lia).
  apply ArticleFacts.getFromResult_entity.
Qed.

Lemma filter_none {A} (f : A -> bool) (l : list A) :
  (forall x, In x l -> f x = false) -> filter f l = [].
Proof. apply ArticleFacts.filter_nil_iff. Qed.

Lemma filter_all {A} (f : A -> bool) (l : list A) :
  (forall x, In x l -> f x = true) -> filter f l = l.
Proof.
  induction l as [|a l IH]; intros H; cbn; [reflexivity|].
  rewrite (H a (or_introl eq_refl)), IH; [reflexivity|].
  intros x Hx. apply H. now right.
Qed.

(** The movie statement leaves one row of its id, and unique ids. *)
Lemma insert_movie_once (mv : MovieRow) (t : Tables) :
  NoDup (map movie_m_id (movie t)) ->
  let t' := apply_write t (InsertMovie mv) in
  NoDup (map movie_m_id (movie t'))
  /\ List.length (filter (fun m => movie_m_id m =? movie_m_id mv) (movie t'))
     = 1%nat.
Proof.
  intros Hnd. cbn [apply_write].
  destruct (existsb _ (movie t)) eqn:E; cbn zeta.
  - split; [exact Hnd|].
    apply existsb_exists in E as (m & Hin & Hm). apply Z.eqb_eq in Hm.
    clear - Hnd Hin Hm. induction (movie t) as [|x l IH]; [contradiction|].
    cbn [map] in Hnd. inversion Hnd as [|? ? Hx Hl]; subst.
    cbn [filter]. destruct Hin as [->|Hin].
    + rewrite (proj2 (Z.eqb_eq _ _) Hm). cbn [List.length]. f_equal.
      rewrite filter_none; [reflexivity|].
      intros y Hy. apply Z.eqb_neq. intros Heq. apply Hx.
      rewrite Hm, <- Heq. now apply in_map.
    + destruct (Z.eqb_spec (movie_m_id x) (movie_m_id mv)) as [Heq|_].
      * exfalso. apply Hx. rewrite Heq, <- Hm. now apply in_map.
      * now apply IH.
  - cbn [movie]. assert (Hno : forall m, In m (movie t) ->
                               (movie_m_id m =? movie_m_id mv) = false).
    { intros m Hin. destruct (movie_m_id m =? movie_m_id mv) eqn:Em;
        [|reflexivity].
      rewrite <- E. symmetry. apply existsb_exists. now exists m. }
    split.
    + rewrite map_app. apply NoDup_app; [exact Hnd | repeat constructor; auto |].
      intros a Ha [<-|[]]. apply in_map_iff in Ha as (m & Hm & Hin).
      specialize (Hno m Hin). apply Z.eqb_neq in Hno. contradiction.
    + rewrite filter_app, (filter_none _ _ Hno). cbn.
      now rewrite Z.eqb_refl.
Qed.

(** *** delete *)

Lemma get_cases (i : Z) (w : World) :
  get i w
  = (match select_article i (committed w) with
     | [] => Throw (ArticleInexistantError i)
     | r :: _ => Return (entity (committed w) r)
     end, w).
Proof.
  destruct (select_article i (committed w)) as [|r rest] eqn:E.
  - unfold get, bind, query. cbv beta.
    change (view Database_get w) with (committed w). now rewrite E.
  - now apply get_first_row with (rest := rest).
Qed.

Lemma delete_tables (this : Article) (w : World) :
  delete this w
  = (Return tt,
     set_committed w
       (delete_image_rows (id this)
          (delete_article_rows (id this) (committed w)))).
Proof. reflexivity. Qed.

Lemma filter_filter {A} (f g : A -> bool) (l : list A) :
  (forall x, f x = true -> g x = true) ->
  filter f (filter g l) = filter f l.
Proof.
  intros H. induction l as [|a l IH]; cbn; [reflexivity|].
  destruct (g a) eqn:G; cbn; [now rewrite IH|].
  destruct (f a) eqn:F; [|exact IH].
  rewrite (H a F) in G. discriminate.
Qed.

(** X16: After [delete], [get] of the id of the article throws
    [ArticleInexistantError], and no image row of the id is left. *)
Theorem delete_then_get (this : Article) (i : Z) (w : World) :
  id this = Some i ->
  let w' := snd (delete this w) in
  get i w' = (Throw (ArticleInexistantError i), w')
  /\ select_images (Some i) (committed w') = [].
Proof.
  intros Hid w'. subst w'. rewrite delete_tables, Hid. cbn [snd].
  rewrite get_cases. cbn [committed set_committed delete_image_rows
                          delete_article_rows article article_image
                          select_images].
  unfold select_article. cbn [article].
  split.
  - rewrite filter_none; [reflexivity|].
    intros x Hx. apply filter_In in Hx as [_ Hx].
    now apply negb_true_iff in Hx.
  - apply filter_none. intros x Hx. apply filter_In in Hx as [_ Hx].
    now apply negb_true_iff in Hx.
Qed.

(** X17: [delete] spares the other articles: [get] of any other id returns
    after it what it returned before. *)
Theorem delete_spares_others (this : Article) (i j : Z) (w : World) :
  id this = Some i -> j <> i ->
  fst (get j (snd (delete this w))) = fst (get j w).
Proof.
  intros Hid Hne. rewrite delete_tables, Hid. cbn [snd].
  rewrite !get_cases. cbn [fst committed set_committed delete_image_rows
                           delete_article_rows].
  unfold select_article. cbn [article].
  rewrite filter_filter.
  2:{ intros x Hx. apply Z.eqb_eq in Hx. apply negb_true_iff.
      apply Z.eqb_neq. lia. }
  destruct (filter (fun row => art_id row =? j) (article (committed w)))
    as [|r rest] eqn:E; [reflexivity|].
  f_equal. unfold entity. cbn [article_image]. do 2 f_equal.
  assert (Hr : art_id r = j).
  { assert (Hin : In r (r :: rest)) by now left.
    rewrite <- E in Hin. apply filter_In in Hin as [_ Hin].
    now apply Z.eqb_eq. }
  apply filter_filter. intros x Hx. apply Z.eqb_eq in Hx.
  apply negb_true_iff. apply Z.eqb_neq. lia.
Qed.

(** X18: The fallback article is in no table: its [delete] changes nothing. *)
Theorem delete_fallback (now now' : Date) (i : Z) (w : World) :
  delete (getFallback now now' i) w = (Return tt, w).
Proof.
  rewrite delete_tables. cbn. now destruct w.
Qed.

Section Create.
Variable TMDB_getMovie : option Z -> Outcome Movie.
Variables (name description : string) (price min_bidding : Z).
Variables (auction_start auction_end : Date) (img_paths : list string).
Variables (tmdb_movie_id selling_company_id : Z).

Local Abbreviation row w :=
  (new_row name description price min_bidding auction_start auction_end
           tmdb_movie_id selling_company_id (art_id_seq w)).

Local Abbreviation call :=
  (create TMDB_getMovie name description price min_bidding
          auction_start auction_end img_paths
          tmdb_movie_id selling_company_id).

Lemma create_provider_failure (w : World) (e : Error) :
  TMDB_getMovie (Some tmdb_movie_id) = Throw e ->
  call w = (Throw e, add_request w (GetMovie (Some tmdb_movie_id))).
Proof.
  intros H. unfold create. unfold bind at 1. unfold getMovie. now rewrite H.
Qed.

Lemma create_result (w : World) (movie : Movie) :
  TMDB_getMovie (Some tmdb_movie_id) = Return movie ->
  call w
  = (if forallb accepted (create_writes (title movie) (row w) img_paths)
     then Return
            (entity
               (fold_left apply_write
                  (accepted_prefix
                     (create_writes (title movie) (row w) img_paths))
                  (committed w))
               (row w))
     else Throw DatabaseError,
     {| committed :=
          fold_left apply_write
            (accepted_prefix (create_writes (title movie) (row w) img_paths))
            (committed w);
        art_id_seq := if valid_text (title movie)
                      then art_id_seq w + 1 else art_id_seq w;
        pending := None;
        requests := requests w ++ [GetMovie (Some tmdb_movie_id)] |}).
Proof.
  intros Hmovie.
  unfold create. unfold bind at 1. unfold getMovie. rewrite Hmovie.
  cbv zeta. unfold bind at 1. unfold begin. unfold bind at 1.
  unfold create_writes. cbn [forallb accepted_prefix m_id new_row].
  unfold Database_get, execute at 1.
  change (valid_text (title movie))
    with (accepted (InsertMovie {| movie_m_id := tmdb_movie_id;
                                   m_title := title movie |})).
  destruct (accepted (InsertMovie _)); [|reflexivity].
  unfold bind at 1. unfold insert_article, execute at 1.
  cbn [art_id_seq set_committed set_pending add_request set_seq committed
       pending requests].
  destruct (accepted (InsertArticle _)); [|reflexivity].
  unfold bind at 1. fold Database_get.
  rewrite image_loop.
  destruct (forallb accepted (map _ img_paths)); [|reflexivity].
  unfold bind at 1. cbn [row_at nth_error]. unfold ret at 1 2.
  unfold bind at 1. cbn [row_at nth_error]. unfold ret at 1.
  rewrite ArticleFacts.getFromResult_entity.
  reflexivity.
Qed.

(** X9: Once the movie provider has answered, [create] commits its statements
    one by one, up to the first that the engine rejects: it throws a
    [DatabaseError] if there is one, and otherwise returns the article as
    read back from the tables it leaves. *)
Theorem create_commits_up_to_rejection (w : World) (movie : Movie) :
  TMDB_getMovie (Some tmdb_movie_id) = Return movie ->
  let ws := create_writes (title movie) (row w) img_paths in
  committed (snd (call w))
  = fold_left apply_write (accepted_prefix ws) (committed w)
  /\ (forallb accepted ws = false -> fst (call w) = Throw DatabaseError)
  /\ (forallb accepted ws = true ->
      committed (snd (call w)) = fold_left apply_write ws (committed w)
      /\ fst (call w) = Return (entity (committed (snd (call w))) (row w))).
Proof.
  intros Hmovie ws. rewrite (create_result w movie Hmovie). fold ws.
  cbn [fst snd committed]. split; [reflexivity|].
  split; intros Hall; rewrite Hall; [reflexivity|].
  now rewrite (accepted_prefix_all ws Hall).
Qed.

(** X10: Without an answer of the movie provider, [create] throws the error of
    the provider: no table changes and no number of the sequence is used. *)
Theorem create_without_movie (w : World) (e : Error) :
  TMDB_getMovie (Some tmdb_movie_id) = Throw e ->
  fst (call w) = Throw e
  /\ committed (snd (call w)) = committed w
  /\ art_id_seq (snd (call w)) = art_id_seq w.
Proof.
  intros H. rewrite (create_provider_failure w e H). now repeat split.
Qed.

(** X11: Whatever its outcome, [create] removes and changes no row: each table
    keeps its rows, in their order, before the new ones, and [bid] stays as
    it is. *)
Theorem create_only_adds (w : World) :
  exists a i m,
    article (committed (snd (call w))) = article (committed w) ++ a
    /\ article_image (committed (snd (call w)))
       = article_image (committed w) ++ i
    /\ movie (committed (snd (call w))) = movie (committed w) ++ m
    /\ bid (committed (snd (call w))) = bid (committed w).
Proof.
  destruct (TMDB_getMovie (Some tmdb_movie_id)) as [movie|e] eqn:H.
  - rewrite (create_result w movie H). cbn [snd committed].
    apply writes_extend.
  - rewrite (create_provider_failure w e H). cbn.
    exists [], [], []. now rewrite !app_nil_r.
Qed.

(** The call with nothing to reject, in full. *)
Lemma create_success (w : World) (film : Movie) :
  TMDB_getMovie (Some tmdb_movie_id) = Return film ->
  valid_text (title film) = true -> valid_text name = true ->
  valid_text description = true -> forallb valid_text img_paths = true ->
  let t' :=
    {| article := article (committed w) ++ [row w];
       article_image :=
         article_image (committed w)
         ++ map (fun p => {| image_art_id := art_id_seq w; img_path := p |})
                img_paths;
       movie :=
         movie (apply_write (committed w)
                  (InsertMovie {| movie_m_id := tmdb_movie_id;
                                  m_title := title film |}));
       bid := bid (committed w) |} in
  call w
  = (Return (entity t' (row w)),
     {| committed := t'; art_id_seq := art_id_seq w + 1; pending := None;
        requests := requests w ++ [GetMovie (Some tmdb_movie_id)] |}).
Proof.
  intros Hmovie Ht Hn Hd Hp t'.
  rewrite (create_result w film Hmovie).
  rewrite (create_writes_accepted (title film) (row w) img_paths Ht Hn Hd Hp).
  rewrite accepted_prefix_all
    by (now apply create_writes_accepted).
  rewrite create_writes_tables, Ht. reflexivity.
Qed.

(** X12: A call with nothing to reject returns the listing it was given: the id
    is the next number of the sequence, the fields are the arguments, and
    the image paths are the given ones in their order, as long as no image
    row carried that id before. *)
Theorem create_returns_listing (w : World) (film : Movie) :
  TMDB_getMovie (Some tmdb_movie_id) = Return film ->
  valid_text (title film) = true -> valid_text name = true ->
  valid_text description = true -> forallb valid_text img_paths = true ->
  (forall image, In image (article_image (committed w)) ->
                 image_art_id image <> art_id_seq w) ->
  fst (call w)
  = Return {| id := Some (art_id_seq w); Article.name := name;
              Article.description := description; Article.price := price;
              Article.min_bidding := min_bidding;
              Article.auction_start := auction_start;
              Article.auction_end := auction_end;
              Article.img_paths := img_paths;
              Article.tmdb_movie_id := Some tmdb_movie_id;
              Article.selling_company_id := Some selling_company_id |}.
Proof.
  intros Hmovie Ht Hn Hd Hp Hfresh.
  rewrite (create_success w film Hmovie Ht Hn Hd Hp). cbn [fst].
  unfold entity. cbn [article_image art_id new_row art_name art_description
                      art_price art_min_bidding art_auction_start
                      art_auction_end m_id c_id].
  do 2 f_equal.
  rewrite filter_app, filter_none, filter_all.
  - cbn [app]. rewrite map_map. cbn [img_path]. apply map_id.
  - intros x Hx. apply in_map_iff in Hx as (p & <- & _). cbn.
    apply Z.eqb_refl.
  - intros x Hx. apply Z.eqb_neq. now apply Hfresh.
Qed.

(** X13: What [create] returns is what [get] returns afterwards for the new id,
    provided the id was not in use. *)
Theorem create_then_get (w : World) (film : Movie) :
  TMDB_getMovie (Some tmdb_movie_id) = Return film ->
  valid_text (title film) = true -> valid_text name = true ->
  valid_text description = true -> forallb valid_text img_paths = true ->
  (forall r, In r (article (committed w)) -> art_id r <> art_id_seq w) ->
  get (art_id_seq w) (snd (call w)) = (fst (call w), snd (call w)).
Proof.
  intros Hmovie Ht Hn Hd Hp Hfresh.
  rewrite (create_success w film Hmovie Ht Hn Hd Hp). cbn [fst snd].
  apply get_first_row with (rest := []).
  unfold select_article. cbn [committed article].
  rewrite filter_app, filter_none.
  - cbn. now rewrite Z.eqb_refl.
  - intros x Hx. apply Z.eqb_neq. now apply Hfresh.
Qed.

(** X14: After a call with nothing to reject the movie has one row, and movie
    ids are still unique if they were: a second call for the same movie
    adds no second row. *)
Theorem create_movie_once (w : World) (film : Movie) :
  TMDB_getMovie (Some tmdb_movie_id) = Return film ->
  valid_text (title film) = true -> valid_text name = true ->
  valid_text description = true -> forallb valid_text img_paths = true ->
  NoDup (map movie_m_id (Store.movie (committed w))) ->
  NoDup (map movie_m_id (Store.movie (committed (snd (call w)))))
  /\ List.length
       (filter (fun m => movie_m_id m =? tmdb_movie_id)
               (Store.movie (committed (snd (call w))))) = 1%nat.
Proof.
  intros Hmovie Ht Hn Hd Hp Hnd.
  rewrite (create_success w film Hmovie Ht Hn Hd Hp).
  cbn [snd committed Store.movie].
  exact (insert_movie_once {| movie_m_id := tmdb_movie_id;
                              m_title := title film |} (committed w) Hnd).
Qed.

(** X15: [delete] of the article that [create] returned takes its rows out of
    [article] and [article_image] again, which are as before the call if
    the id was not in use; the row of the movie stays. *)
Theorem create_then_delete (w : World) (film : Movie) (created : Article) :
  TMDB_getMovie (Some tmdb_movie_id) = Return film ->
  valid_text (title film) = true -> valid_text name = true ->
  valid_text description = true -> forallb valid_text img_paths = true ->
  (forall r, In r (article (committed w)) -> art_id r <> art_id_seq w) ->
  (forall image, In image (article_image (committed w)) ->
                 image_art_id image <> art_id_seq w) ->
  fst (call w) = Return created ->
  let w' := snd (delete created (snd (call w))) in
  article (committed w') = article (committed w)
  /\ article_image (committed w') = article_image (committed w)
  /\ Store.movie (committed w') = Store.movie (committed (snd (call w))).
Proof.
  intros Hmovie Ht Hn Hd Hp Hart Himg Hret w'. subst w'.
  rewrite (create_success w film Hmovie Ht Hn Hd Hp) in *.
  cbn [fst snd] in *. inversion Hret as [Hc]. clear Hret. subst created.
  rewrite delete_tables. cbn [snd committed set_committed].
  unfold entity. cbn [id delete_article_rows delete_image_rows
                             article article_image Store.movie art_id new_row].
  repeat split.
  - rewrite filter_app, filter_all.
    + cbn. rewrite Z.eqb_refl. cbn. apply app_nil_r.
    + intros x Hx. apply negb_true_iff, Z.eqb_neq. now apply Hart.
  - rewrite filter_app, filter_all, filter_none.
    + apply app_nil_r.
    + intros x Hx. apply in_map_iff in Hx as (p & <- & _). cbn.
      now rewrite Z.eqb_refl.
    + intros x Hx. apply negb_true_iff, Z.eqb_neq. now apply Himg.
Qed.

End Create.

(** *** The fallback article and isLikedBy *)

(** X19: The poster of the fallback article is the placeholder, and no request
    goes to the movie provider for it. *)
Theorem fallback_poster
    (TMDB_getMoviePosterURL : option Z -> string -> Outcome string)
    (now now' : Date) (i : Z) (w : World) :
  getPoster TMDB_getMoviePosterURL (getFallback now now' i) w
  = (Return "/img/article/placeholder.jpg"%string, w).
Proof. reflexivity. Qed.

Lemma isLikedBy_result (interests : list InterestRow) (this : Article)
    (b : Z) (w : World) :
  isLikedBy interests this b w
  = (Return (Z.of_nat (List.length (select_interests interests (id this) b))
             >? 0), w).
Proof. reflexivity. Qed.

(** X20: [isLikedBy] answers [true] exactly when [interests] holds a row of the
    article and the buyer; for an article without id, the fallback one, it
    answers [false] whatever the table holds. *)
Theorem isLikedBy_row (interests : list InterestRow) (this : Article)
    (b : Z) (w : World) :
  (forall i, id this = Some i ->
     (fst (isLikedBy interests this b w) = Return true
      <-> exists row, In row interests
                      /\ interest_art_id row = i /\ interest_b_id row = b))
  /\ (id this = None -> isLikedBy interests this b w = (Return false, w)).
Proof.
  rewrite isLikedBy_result. split.
  - intros i ->. cbn [fst select_interests].
    set (f := fun row : InterestRow => _).
    destruct (filter f interests) as [|r rest] eqn:E; cbn [List.length].
    + split; [discriminate|]. intros (row & Hin & Hi & Hb).
      pose proof (proj1 (ArticleFacts.filter_nil_iff f interests) E row Hin)
        as Hf.
      unfold f in Hf. rewrite Hi, Hb, !Z.eqb_refl in Hf. discriminate.
    + split; [intros _ | reflexivity].
      assert (Hin : In r (filter f interests)) by (rewrite E; now left).
      apply filter_In in Hin as [Hin Hf]. unfold f in Hf.
      apply andb_prop in Hf as [Hi Hb].
      exists r. split; [exact Hin|]. split; now apply Z.eqb_eq.
  - now intros ->.
Qed.

(** *** Reading *)

Lemma getBySearch_result
    (ranked_matches : string -> Tables -> list ArticleRow)
    (search : string) (params : Params) (w : World) :
  String.eqb search "@all" = false ->
  getBySearch ranked_matches search params w
  = (match limit_offset (limit params) (or_else (offset params) 0)
                        (ranked_matches search (committed w)) with
     | Some rows => Return (map (entity (committed w)) rows)
     | None => Throw DatabaseError
     end, w).
Proof.
  intros E. unfold getBySearch. rewrite E.
  unfold bind, query_checked. cbv beta zeta.
  change (view Database_get w) with (committed w).
  destruct (limit_offset _ _ _); [|reflexivity].
  now rewrite ArticleFacts.push_each_getFromResult.
Qed.

(** X21: A search other than [@all] returns the matches of the engine from
    position [offset] on, [limit] of them at most and none for a [limit] of
    0; a negative [limit] or [offset] is the error of the engine. *)
Theorem getBySearch_page
    (ranked_matches : string -> Tables -> list ArticleRow)
    (search : string) (params : Params) (w : World) :
  String.eqb search "@all" = false ->
  (0 <= limit params -> 0 <= offset params ->
   exists l,
     getBySearch ranked_matches search params w = (Return l, w)
     /\ l = map (entity (committed w))
              (firstn (Z.to_nat (limit params))
                 (skipn (Z.to_nat (offset params))
                    (ranked_matches search (committed w))))
     /\ Z.of_nat (List.length l) <= limit params)
  /\ (limit params < 0 \/ offset params < 0 ->
      getBySearch ranked_matches search params w = (Throw DatabaseError, w)).
Proof.
  intros E. rewrite (getBySearch_result _ _ _ _ E).
  rewrite ArticleFacts.or_else_zero. unfold limit_offset. split.
  - intros Hl Ho.
    replace (limit params <? 0) with false by (symmetry; now apply Z.ltb_ge).
    replace (offset params <? 0) with false by (symmetry; now apply Z.ltb_ge).
    cbn [orb]. eexists. split; [reflexivity|]. split; [reflexivity|].
    rewrite length_map.
    pose proof (firstn_le_length (Z.to_nat (limit params))
                  (skipn (Z.to_nat (offset params))
                         (ranked_matches search (committed w)))). lia.
  - intros [H|H]; apply Z.ltb_lt in H; rewrite H;
      [reflexivity | now rewrite orb_true_r].
Qed.

(** X22: None of the reading operations changes the tables, the sequence or the
    log of requests, whatever it returns or throws. *)
Theorem reads_change_nothing
    (ranked_matches : string -> Tables -> list ArticleRow)
    (order : RowOrder)
    (interests : list InterestRow) (this : Article)
    (i b : Z) (search : string) (params : Params) (w : World) :
  snd (get i w) = w
  /\ snd (getAll w) = w
  /\ snd (getBySearch ranked_matches search params w) = w
  /\ snd (mostBids order params w) = w
  /\ snd (isLikedBy interests this b w) = w.
Proof.
  rewrite get_cases, ArticleFacts.getAll_entities,
    ArticleFacts.mostBids_equation.
  repeat split.
  destruct (String.eqb search "@all") eqn:E.
  - unfold getBySearch. rewrite E. now rewrite ArticleFacts.getAll_entities.
  - now rewrite (getBySearch_result _ _ _ _ E).
Qed.

(** *** mostBids *)

Lemma in_page {A} (n m : nat) (l : list A) (x : A) :
  In x (firstn n (skipn m l)) -> In x l.
Proof.
  intros H. rewrite <- (firstn_skipn m l). apply in_or_app. right.
  rewrite <- (firstn_skipn n (skipn m l)). apply in_or_app. now left.
Qed.

Lemma existsb_eqb_in (k : Z) (l : list Z) :
  existsb (Z.eqb k) l = true <-> In k l.
Proof.
  rewrite existsb_exists. split.
  - intros (x & Hx & E). apply Z.eqb_eq in E. now subst.
  - intros H. exists k. split; [exact H | apply Z.eqb_refl].
Qed.

Lemma bid_count_positive (t : Tables) (i : Z) :
  In i (bid_groups t) -> 1 <= bid_count t i.
Proof.
  intros H. apply ArticleFacts.bid_groups_in in H as (b & Hin & Hb).
  unfold bid_count.
  destruct (filter (fun b0 => bid_art_id b0 =? i) (bid t)) eqn:E.
  - pose proof (proj1 (ArticleFacts.filter_nil_iff _ _) E b Hin) as Hf.
    cbn in Hf. apply Z.eqb_neq in Hf. contradiction.
  - cbn [List.length]. lia.
Qed.

Lemma bid_count_none (t : Tables) (i : Z) :
  ~ In i (bid_groups t) -> bid_count t i = 0.
Proof.
  intros H. unfold bid_count. rewrite filter_none; [reflexivity|].
  intros b Hb. apply Z.eqb_neq. intros E. apply H.
  apply ArticleFacts.bid_groups_in. now exists b.
Qed.

(** The rows that [mostBids] maps, when the engine accepts its [LIMIT] and
    [OFFSET]. *)
Lemma mostBids_rows (order : RowOrder) (params : Params) (w : World)
    (l : list Article) :
  fst (mostBids order params w) = Return l ->
  exists page rows,
    limit_offset (or_else (limit params) 8) (or_else (offset params) 0)
                 (bid_ranking order (committed w)) = Some page
    /\ Permutation rows
         (filter (fun row => existsb (Z.eqb (art_id row)) page)
                 (article (committed w)))
    /\ l = map (entity (committed w)) rows.
Proof.
  rewrite ArticleFacts.mostBids_equation. unfold select_most_bids.
  cbn [fst].
  destruct (limit_offset _ _ _) as [page|]; cbn [option_map];
    [|discriminate].
  intros H. inversion H. exists page. eexists.
  split; [reflexivity|]. split; [apply arrange_permutation | reflexivity].
Qed.

Lemma page_in_ranking {A} (l o : Z) (rows page : list A) (x : A) :
  limit_offset l o rows = Some page -> In x page -> In x rows.
Proof.
  unfold limit_offset. destruct ((l <? 0) || (o <? 0)); [discriminate|].
  intros H. inversion H. apply in_page.
Qed.

(** X23: Every article that [mostBids] returns has a bid: an article without
    bids is never listed, however large the limit. *)
Theorem mostBids_only_with_bids (order : RowOrder) (params : Params)
    (w : World) (l : list Article) (a : Article) :
  fst (mostBids order params w) = Return l -> In a l ->
  1 <= bids_of (committed w) a.
Proof.
  intros Hret Ha.
  destruct (mostBids_rows _ _ _ _ Hret) as (page & rows & Hp & Hperm & ->).
  apply in_map_iff in Ha as (r & <- & Hr).
  apply (Permutation_in _ Hperm) in Hr. apply filter_In in Hr as [_ Hr].
  apply existsb_eqb_in in Hr. cbn. apply bid_count_positive.
  eapply Permutation_in; [apply ArticleFacts.bid_ranking_groups|].
  eapply page_in_ranking; eassumption.
Qed.

Lemma existsb_remove (k z : Z) (page : list Z) :
  k <> z ->
  existsb (Z.eqb k) (remove Z.eq_dec z page) = existsb (Z.eqb k) page.
Proof.
  intros Hne. induction page as [|p page IH]; [reflexivity|].
  cbn [remove existsb]. destruct (Z.eq_dec z p) as [<-|Hp]; cbn [existsb].
  - rewrite IH. now rewrite (proj2 (Z.eqb_neq k z) Hne).
  - now rewrite IH.
Qed.

(** Rows of distinct ids selected by membership of their id in a page are
    no more than the page is long. *)
Lemma members_at_most {A} (f : A -> Z) (l : list A) (page : list Z) :
  NoDup (map f l) ->
  (List.length (filter (fun x => existsb (Z.eqb (f x)) page) l)
   <= List.length page)%nat.
Proof.
  revert page. induction l as [|x l IH]; intros page Hnd; cbn [filter].
  - cbn. lia.
  - cbn [map] in Hnd. inversion Hnd as [|? ? Hx Hl]; subst.
    destruct (existsb (Z.eqb (f x)) page) eqn:E.
    + apply existsb_eqb_in in E.
      pose proof (remove_length_lt Z.eq_dec page (f x) E) as Hlt.
      rewrite (filter_ext_in _ (fun y => existsb (Z.eqb (f y))
                                           (remove Z.eq_dec (f x) page))).
      * specialize (IH (remove Z.eq_dec (f x) page) Hl).
        cbn [List.length]. lia.
      * intros y Hy. symmetry. apply existsb_remove.
        intros Heq. apply Hx. rewrite <- Heq. now apply in_map.
    + now apply IH.
Qed.

(** X24: With unique article ids, [mostBids] returns no more articles than its
    limit, which is 8 for a [limit] of 0. *)
Theorem mostBids_at_most_limit (order : RowOrder) (params : Params)
    (w : World) (l : list Article) :
  NoDup (map art_id (article (committed w))) ->
  fst (mostBids order params w) = Return l ->
  Z.of_nat (List.length l) <= or_else (limit params) 8.
Proof.
  intros Hnd Hret.
  destruct (mostBids_rows _ _ _ _ Hret) as (page & rows & Hp & Hperm & ->).
  rewrite length_map, (Permutation_length Hperm).
  pose proof (members_at_most art_id (article (committed w)) page Hnd) as H.
  unfold limit_offset in Hp.
  destruct (or_else (limit params) 8 <? 0) eqn:El; [discriminate|].
  destruct (or_else (offset params) 0 <? 0); [discriminate|].
  cbn [orb] in Hp. inversion Hp as [Hpage]. rewrite <- Hpage in H.
  apply Z.ltb_ge in El.
  pose proof (firstn_le_length (Z.to_nat (or_else (limit params) 8))
                (skipn (Z.to_nat (or_else (offset params) 0))
                       (bid_ranking order (committed w)))) as Hf.
  lia.
Qed.

Lemma sorted_split {A} (R : A -> A -> Prop) (l : list A) (n : nat) (x y : A) :
  StronglySorted R l -> In x (firstn n l) -> In y (skipn n l) -> R x y.
Proof.
  intros Hs. revert n. induction Hs as [|a l Hs IH Ha]; intros n Hx Hy.
  - destruct n; contradiction.
  - destruct n as [|n]; [contradiction|]. cbn in Hx, Hy.
    destruct Hx as [<-|Hx].
    + rewrite Forall_forall in Ha. apply Ha.
      rewrite <- (firstn_skipn n l). apply in_or_app. now right.
    + now apply (IH n).
Qed.

(** X25: From the start of the ranking ([offset] 0), the articles that
    [mostBids] returns are the ones with the most bids: none of them has
    fewer bids than an article it leaves out. *)
Theorem mostBids_top (order : RowOrder) (params : Params) (w : World)
    (l : list Article) (a : Article) (r : ArticleRow) :
  offset params = 0 ->
  fst (mostBids order params w) = Return l ->
  In a l -> In r (article (committed w)) ->
  ~ In (Some (art_id r)) (map id l) ->
  bid_count (committed w) (art_id r) <= bids_of (committed w) a.
Proof.
  intros Ho Hret Ha Hr Hout.
  destruct (mostBids_rows _ _ _ _ Hret) as (page & rows & Hp & Hperm & ->).
  rewrite Ho in Hp. unfold limit_offset in Hp.
  destruct ((or_else (limit params) 8 <? 0) || (or_else 0 0 <? 0));
    [discriminate|].
  inversion Hp as [Hpage]. clear Hp. cbn [or_else Z.to_nat skipn] in Hpage.
  change (Z.to_nat (or_else 0 0)) with 0%nat in Hpage. cbn [skipn] in Hpage.
  set (k := Z.to_nat (or_else (limit params) 8)) in *.
  apply in_map_iff in Ha as (ra & <- & Hra).
  apply (Permutation_in _ Hperm) in Hra.
  apply filter_In in Hra as [_ Hra]. apply existsb_eqb_in in Hra.
  assert (Hnot : ~ In (art_id r) page).
  { intros Hin. apply Hout. rewrite map_map. apply in_map_iff.
    exists r. split; [reflexivity|].
    apply (Permutation_in _ (Permutation_sym Hperm)).
    apply filter_In. split; [exact Hr|]. now apply existsb_eqb_in. }
  cbn [bids_of entity id].
  destruct (in_dec Z.eq_dec (art_id r) (bid_ranking order (committed w)))
    as [Hin|Hnin].
  - rewrite <- Hpage in Hra, Hnot.
    rewrite <- (firstn_skipn k (bid_ranking order (committed w))) in Hin.
    apply in_app_or in Hin as [Hin|Hin]; [contradiction|].
    exact (sorted_split _ _ k _ _
             (ArticleFacts.order_desc_sorted _ _) Hra Hin).
  - rewrite bid_count_none.
    + unfold bid_count. lia.
    + intros Hg. apply Hnin.
      eapply Permutation_in;
        [symmetry; apply ArticleFacts.bid_ranking_groups | exact Hg].
Qed.

Lemma unique_select (l : list ArticleRow) (r : ArticleRow) :
  NoDup (map art_id l) -> In r l ->
  filter (fun x => art_id x =? art_id r) l = [r].
Proof.
  induction l as [|x l IH]; intros Hnd Hin; [contradiction|].
  cbn [map] in Hnd. inversion Hnd as [|? ? Hx Hl]; subst. cbn [filter].
  destruct Hin as [->|Hin].
  - rewrite Z.eqb_refl, filter_none; [reflexivity|].
    intros y Hy. apply Z.eqb_neq. intros E. apply Hx. rewrite <- E.
    now apply in_map.
  - destruct (Z.eqb_spec (art_id x) (art_id r)) as [E|_].
    + exfalso. apply Hx. rewrite E. now apply in_map.
    + now apply IH.
Qed.

(** X26: With unique article ids, each article that [getAll] lists is the one
    that [get] returns for its id. *)
Theorem getAll_then_get (w : World) (l : list Article) (a : Article) :
  NoDup (map art_id (article (committed w))) ->
  fst (getAll w) = Return l -> In a l ->
  exists i, id a = Some i /\ get i w = (Return a, w).
Proof.
  intros Hnd Hret Ha. rewrite ArticleFacts.getAll_entities in Hret.
  inversion Hret; subst l. apply in_map_iff in Ha as (r & <- & Hr).
  exists (art_id r). split; [reflexivity|].
  apply get_first_row with (rest := []).
  now apply unique_select.
Qed.

(** *** The properties above, at the sample data *)

Lemma create_commits_up_to_rejection_witness :
  fst (create Sample.alien_only "Poster" "Original" 100 5
              Sample.epoch Sample.epoch
              ["/img/article/1-a.jpg"%string; Sample.bad_path] 7 3
              Sample.fresh)
  = Throw DatabaseError.
Proof.
  apply (proj1 (proj2 (create_commits_up_to_rejection Sample.alien_only
           "Poster" "Original" 100 5 Sample.epoch Sample.epoch
           ["/img/article/1-a.jpg"%string; Sample.bad_path] 7 3
           Sample.fresh {| title := "Alien" |} eq_refl))).
  reflexivity.
Defined.

Lemma create_without_movie_witness :
  fst (create Sample.alien_only "Poster" "Original" 100 5
              Sample.epoch Sample.epoch ["/img/article/1-a.jpg"%string] 8 3
              Sample.fresh)
  = Throw ProviderError.
Proof.
  apply (proj1 (create_without_movie Sample.alien_only
           "Poster" "Original" 100 5 Sample.epoch Sample.epoch
           ["/img/article/1-a.jpg"%string] 8 3 Sample.fresh
           ProviderError eq_refl)).
Defined.

Lemma create_returns_listing_witness :
  fst (create Sample.alien_only "Poster" "Original" 100 5
              Sample.epoch Sample.epoch
              ["/img/article/1-a.jpg"%string; "/img/article/1-b.jpg"%string]
              7 3 Sample.fresh)
  = Return {| id := Some 1; name := "Poster"; description := "Original";
              price := 100; min_bidding := 5;
              auction_start := Sample.epoch; auction_end := Sample.epoch;
              img_paths := ["/img/article/1-a.jpg"%string;
                            "/img/article/1-b.jpg"%string];
              tmdb_movie_id := Some 7; selling_company_id := Some 3 |}.
Proof.
  apply (create_returns_listing Sample.alien_only
           "Poster" "Original" 100 5 Sample.epoch Sample.epoch
           ["/img/article/1-a.jpg"%string; "/img/article/1-b.jpg"%string]
           7 3 Sample.fresh {| title := "Alien" |});
    try reflexivity.
  intros image [].
Defined.

Lemma create_then_get_witness :
  let outcome :=
    create Sample.alien_only "Poster" "Original" 100 5
           Sample.epoch Sample.epoch ["/img/article/1-a.jpg"%string] 7 3
           Sample.fresh in
  get 1 (snd outcome) = (fst outcome, snd outcome).
Proof.
  apply (create_then_get Sample.alien_only
           "Poster" "Original" 100 5 Sample.epoch Sample.epoch
           ["/img/article/1-a.jpg"%string] 7 3 Sample.fresh
           {| title := "Alien" |});
    try reflexivity.
  intros r [].
Defined.

Lemma create_movie_once_witness :
  List.length
    (filter (fun m => movie_m_id m =? 7)
       (movie (committed
          (snd (create Sample.alien_only "Poster" "Original" 100 5
                       Sample.epoch Sample.epoch [] 7 3 Sample.auction)))))
  = 1%nat.
Proof.
  apply (proj2 (create_movie_once Sample.alien_only
           "Poster" "Original" 100 5 Sample.epoch Sample.epoch [] 7 3
           Sample.auction {| title := "Alien" |}
           eq_refl eq_refl eq_refl eq_refl eq_refl
           ltac:(cbn; repeat constructor; cbn; tauto))).
Defined.

Lemma create_then_delete_witness :
  let created :=
    {| id := Some 1; name := "Poster"; description := "Original";
       price := 100; min_bidding := 5;
       auction_start := Sample.epoch; auction_end := Sample.epoch;
       img_paths := ["/img/article/1-a.jpg"%string];
       tmdb_movie_id := Some 7; selling_company_id := Some 3 |} in
  let after :=
    snd (delete created
           (snd (create Sample.alien_only "Poster" "Original" 100 5
                        Sample.epoch Sample.epoch
                        ["/img/article/1-a.jpg"%string] 7 3 Sample.fresh))) in
  article (committed after) = [] /\ article_image (committed after) = [].
Proof.
  intros created after.
  destruct (create_then_delete Sample.alien_only
              "Poster" "Original" 100 5 Sample.epoch Sample.epoch
              ["/img/article/1-a.jpg"%string] 7 3 Sample.fresh
              {| title := "Alien" |} created
              eq_refl eq_refl eq_refl eq_refl eq_refl
              ltac:(intros r []) ltac:(intros r []) eq_refl)
    as (Ha & Hi & _).
  split; [exact Ha | exact Hi].
Defined.

Lemma delete_then_get_witness :
  let this := entity Sample.auction_tables (Sample.poster 1) in
  fst (get 1 (snd (delete this Sample.auction)))
  = Throw (ArticleInexistantError 1).
Proof.
  intros this.
  destruct (delete_then_get this 1 Sample.auction eq_refl) as [H _].
  now rewrite H.
Defined.

Lemma delete_spares_others_witness :
  let this := entity Sample.auction_tables (Sample.poster 1) in
  fst (get 2 (snd (delete this Sample.auction))) = fst (get 2 Sample.auction).
Proof.
  intros this.
  apply (delete_spares_others this 1 2 Sample.auction eq_refl). lia.
Defined.

Lemma isLikedBy_row_witness :
  fst (isLikedBy [ {| interest_art_id := 1; interest_b_id := 10 |} ]
                 (entity Sample.auction_tables (Sample.poster 1)) 10
                 Sample.auction)
  = Return true.
Proof.
  apply (proj1 (isLikedBy_row
                  [ {| interest_art_id := 1; interest_b_id := 10 |} ]
                  (entity Sample.auction_tables (Sample.poster 1)) 10
                  Sample.auction) 1 eq_refl).
  exists {| interest_art_id := 1; interest_b_id := 10 |}.
  repeat split. now left.
Defined.

Lemma getBySearch_page_witness :
  exists l,
    getBySearch (fun _ t => article t) "poster" {| limit := 1; offset := 0 |}
                Sample.auction
    = (Return l, Sample.auction)
    /\ Z.of_nat (List.length l) <= 1.
Proof.
  destruct (proj1 (getBySearch_page (fun _ t => article t) "poster"
                     {| limit := 1; offset := 0 |} Sample.auction eq_refl))
    as (l & E & _ & Hlen); [cbn; lia | cbn; lia |].
  exists l. split; [exact E | exact Hlen].
Defined.

Lemma mostBids_only_with_bids_witness :
  1 <= bids_of Sample.auction_tables
               (entity Sample.auction_tables (Sample.poster 2)).
Proof.
  eapply (mostBids_only_with_bids table_order {| limit := 8; offset := 0 |}
            Sample.auction).
  - reflexivity.
  - right. left. reflexivity.
Defined.

Lemma mostBids_at_most_limit_witness :
  exists l,
    fst (mostBids table_order {| limit := 1; offset := 0 |} Sample.auction)
    = Return l
    /\ Z.of_nat (List.length l) <= 1.
Proof.
  eexists. split; [reflexivity|].
  apply (mostBids_at_most_limit table_order {| limit := 1; offset := 0 |}
                                Sample.auction).
  - cbn. repeat constructor; cbn; intuition discriminate.
  - reflexivity.
Defined.

Lemma mostBids_top_witness :
  bid_count Sample.auction_tables 1
  <= bids_of Sample.auction_tables
             (entity Sample.auction_tables (Sample.poster 2)).
Proof.
  eapply (mostBids_top table_order {| limit := 1; offset := 0 |}
            Sample.auction _
            (entity Sample.auction_tables (Sample.poster 2))
            (Sample.poster 1)).
  - reflexivity.
  - reflexivity.
  - left. reflexivity.
  - left. reflexivity.
  - cbn. intros [H|[]]. discriminate H.
Defined.

Lemma getAll_then_get_witness :
  exists i,
    id (entity Sample.auction_tables (Sample.poster 1)) = Some i
    /\ get i Sample.auction
       = (Return (entity Sample.auction_tables (Sample.poster 1)),
          Sample.auction).
Proof.
  eapply (getAll_then_get Sample.auction).
  - cbn. repeat constructor; cbn; intuition discriminate.
  - reflexivity.
  - left. reflexivity.
Defined.

End ArticleMore.
